(** * preamble.h: enum/name-table generation, arity dispatch, binary formatting

  A shallow embedding of the three macro families of [preamble.h]:

  - the FORMATTING macros ([BINARY_FORMAT_PATTERN_w], [BYTE_TO_BINARY_CHARS_w])
    are expression macros; they are embedded as functions on integers
    ([Z], with the casts to [u8]..[u64] written out as reductions modulo a
    power of two) and on strings;
  - the ENUMS and DEFAULT ARGUMENTS macros generate program text; they are
    embedded as functions on preprocessing tokens, one clause per
    replacement list. *)

From Stdlib Require Import ZArith List String Ascii Bool Lia.
From Stdlib Require Import DecimalString DecimalNat.
Import ListNotations.

Local Open Scope Z_scope.

(** ** Integer types of the header *)

Module Types.

(** [typedef uint8_t u8;] and friends: conversion to an unsigned type of
    [w] bits reduces the value modulo [2^w]. *)
Definition u8  (x : Z) : Z := x mod 2 ^ 8.
Definition u16 (x : Z) : Z := x mod 2 ^ 16.
Definition u32 (x : Z) : Z := x mod 2 ^ 32.
Definition u64 (x : Z) : Z := x mod 2 ^ 64.

(** The type of the literal [1ULL]: [unsigned long long], 64 bits. *)
Definition ull (x : Z) : Z := x mod 2 ^ 64.

(** The logical negation [!e] of C: 1 when [e] compares equal to 0. *)
Definition c_not (e : Z) : Z := if e =? 0 then 1 else 0.

(** The conditional [c ? a : b] of C. *)
Definition c_cond {A : Type} (c : Z) (a b : A) : A :=
  if c =? 0 then b else a.

End Types.

(** ** BIT MANIPULATION *)

Module Bits.
Import Types.

(** [#define BIT_CHECK(x, bit)  (!!((x) & (1ULL << (bit))))]

    The right operand of [&] has type [unsigned long long], so the left
    one is converted to it. *)
Definition BIT_CHECK (x bit : Z) : Z :=
  c_not (c_not (Z.land (ull x) (ull (Z.shiftl 1 bit)))).

End Bits.

(** ** FORMATTING *)

Module Formatting.
Import Types Bits.

Local Open Scope string_scope.

(** The two [#ifndef] defaults. *)
Definition BINARY_FORMAT_PATTERN_PREFIX : string := "0b".
Definition BINARY_FORMAT_PATTERN_DELIMITER : string := "_".

(** Adjacent string literals are concatenated. *)
Definition BINARY_FORMAT_PATTERN_8 : string :=
  BINARY_FORMAT_PATTERN_PREFIX ++ "%c%c%c%c%c%c%c%c".

Definition BINARY_FORMAT_PATTERN_16 : string :=
  BINARY_FORMAT_PATTERN_PREFIX ++ "%c%c%c%c%c%c%c%c"
    ++ BINARY_FORMAT_PATTERN_DELIMITER ++ "%c%c%c%c%c%c%c%c".

Definition BINARY_FORMAT_PATTERN_32 : string :=
  BINARY_FORMAT_PATTERN_PREFIX ++ "%c%c%c%c%c%c%c%c"
    ++ BINARY_FORMAT_PATTERN_DELIMITER ++ "%c%c%c%c%c%c%c%c"
    ++ BINARY_FORMAT_PATTERN_DELIMITER ++ "%c%c%c%c%c%c%c%c"
    ++ BINARY_FORMAT_PATTERN_DELIMITER ++ "%c%c%c%c%c%c%c%c".

Definition BINARY_FORMAT_PATTERN_64 : string :=
  BINARY_FORMAT_PATTERN_PREFIX ++ "%c%c%c%c%c%c%c%c"
    ++ BINARY_FORMAT_PATTERN_DELIMITER ++ "%c%c%c%c%c%c%c%c"
    ++ BINARY_FORMAT_PATTERN_DELIMITER ++ "%c%c%c%c%c%c%c%c"
    ++ BINARY_FORMAT_PATTERN_DELIMITER ++ "%c%c%c%c%c%c%c%c"
    ++ BINARY_FORMAT_PATTERN_DELIMITER ++ "%c%c%c%c%c%c%c%c"
    ++ BINARY_FORMAT_PATTERN_DELIMITER ++ "%c%c%c%c%c%c%c%c"
    ++ BINARY_FORMAT_PATTERN_DELIMITER ++ "%c%c%c%c%c%c%c%c"
    ++ BINARY_FORMAT_PATTERN_DELIMITER ++ "%c%c%c%c%c%c%c%c".

Local Open Scope char_scope.

(** The expansion is a comma separated run of [printf] arguments; it is
    embedded as the list of their values, in argument order. *)
Definition BYTE_TO_BINARY_CHARS_8 (x : Z) : list ascii :=
  [ c_cond (BIT_CHECK (u8 x) 7) "1" "0";
    c_cond (BIT_CHECK (u8 x) 6) "1" "0";
    c_cond (BIT_CHECK (u8 x) 5) "1" "0";
    c_cond (BIT_CHECK (u8 x) 4) "1" "0";
    c_cond (BIT_CHECK (u8 x) 3) "1" "0";
    c_cond (BIT_CHECK (u8 x) 2) "1" "0";
    c_cond (BIT_CHECK (u8 x) 1) "1" "0";
    c_cond (BIT_CHECK (u8 x) 0) "1" "0" ].

Definition BYTE_TO_BINARY_CHARS_16 (x : Z) : list ascii :=
  BYTE_TO_BINARY_CHARS_8 (Z.shiftr (u16 x) 8)
    ++ BYTE_TO_BINARY_CHARS_8 (u16 x).

Definition BYTE_TO_BINARY_CHARS_32 (x : Z) : list ascii :=
  BYTE_TO_BINARY_CHARS_16 (Z.shiftr (u32 x) 16)
    ++ BYTE_TO_BINARY_CHARS_16 (u32 x).

Definition BYTE_TO_BINARY_CHARS_64 (x : Z) : list ascii :=
  BYTE_TO_BINARY_CHARS_32 (Z.shiftr (u64 x) 32)
    ++ BYTE_TO_BINARY_CHARS_32 (u64 x).

(** The four widths for which the header has a pair of macros. *)
Inductive width : Set := W8 | W16 | W32 | W64.

Definition bits (w : width) : nat :=
  match w with W8 => 8 | W16 => 16 | W32 => 32 | W64 => 64 end%nat.

Definition BINARY_FORMAT_PATTERN (w : width) : string :=
  match w with
  | W8 => BINARY_FORMAT_PATTERN_8
  | W16 => BINARY_FORMAT_PATTERN_16
  | W32 => BINARY_FORMAT_PATTERN_32
  | W64 => BINARY_FORMAT_PATTERN_64
  end.

Definition BYTE_TO_BINARY_CHARS (w : width) : Z -> list ascii :=
  match w with
  | W8 => BYTE_TO_BINARY_CHARS_8
  | W16 => BYTE_TO_BINARY_CHARS_16
  | W32 => BYTE_TO_BINARY_CHARS_32
  | W64 => BYTE_TO_BINARY_CHARS_64
  end.

(** *** Reference notions the properties are stated with *)

Definition bit_char (b : bool) : ascii := if b then "1" else "0".

(** Big-endian bit expansion: bits [n-1] down to [0] of [x]. *)
Fixpoint big_endian_bits (n : nat) (x : Z) : list ascii :=
  match n with
  | O => []
  | S m => bit_char (Z.testbit x (Z.of_nat m)) :: big_endian_bits m x
  end.

(** Reading a run of ['1']/['0'] characters back, most significant first. *)
Definition char_bit (c : ascii) : Z := if Ascii.eqb c "1" then 1 else 0.

Definition reassemble (cs : list ascii) : Z :=
  fold_left (fun acc c => 2 * acc + char_bit c) cs 0.

(** Number of conversion specifications in a [printf] pattern: a [%]
    followed by [%] prints a percent sign, any other pair consumes one
    argument. *)
Fixpoint placeholders (s : string) : nat :=
  match s with
  | EmptyString => O
  | String "%" rest =>
      match rest with
      | EmptyString => O
      | String "%" rest' => placeholders rest'
      | String _ rest' => S (placeholders rest')
      end
  | String _ rest => placeholders rest
  end.

(** One byte group of the pattern, and [n] groups joined by a delimiter. *)
Definition byte_group : string := "%c%c%c%c%c%c%c%c"%string.

Fixpoint groups (delimiter : string) (n : nat) : string :=
  match n with
  | O => EmptyString
  | S O => byte_group
  | S m => (byte_group ++ delimiter ++ groups delimiter m)%string
  end.

End Formatting.

(** ** Preprocessing tokens *)

Module Tokens.

Local Open Scope string_scope.
Local Open Scope list_scope.

Inductive token : Set :=
| Ident (name : string)
| Number (n : nat)
| StringLit (s : string)
| LParen | RParen | LBrace | RBrace | Comma
| Other (spelling : string).

(** A macro argument is a run of tokens; the arguments of an invocation
    are a list of them.  In [F()] the variadic macro [F] receives one
    argument, the empty run.  Where an argument replaces a parameter that
    is not an operand of [#] or [##], it does so fully macro-expanded, and
    the run is the expanded one. *)
Definition Arg : Set := list token.

Definition decimal (n : nat) : string :=
  NilEmpty.string_of_uint (Nat.to_uint n).

(** [__VA_ARGS__]: the arguments with the commas between them. *)
Fixpoint separated (args : list Arg) : list token :=
  match args with
  | [] => []
  | [a] => a
  | a :: rest => a ++ Comma :: separated rest
  end.

(** [x ## y] on two tokens: the spellings are joined and read again as
    one token. *)
Definition paste (x y : token) : option token :=
  match x, y with
  | Ident s, Ident t => Some (Ident (s ++ t)%string)
  | Ident s, Number n => Some (Ident (s ++ decimal n)%string)
  | _, _ => None
  end.

(** Outcome of compiling the expanded text: what it denotes, or the
    identifier that nothing declares. *)
Inductive build (A : Type) : Type :=
| Built (a : A)
| Undeclared (identifier : string).
Arguments Built {A} a.
Arguments Undeclared {A} identifier.

Fixpoint lookup {A : Type} (name : string) (table : list (string * A))
  : option A :=
  match table with
  | [] => None
  | (n, a) :: rest => if String.eqb name n then Some a else lookup name rest
  end.

End Tokens.

(** ** The macros the header defines *)

Module Header.

Local Open Scope string_scope.

(** Every name introduced by a [#define] of the header, in file order
    (a name defined on several conditional branches is listed once). *)
Definition macros : list string :=
  [ "PREAMBLE_HEADER_INCLUDE_GUARD"; "true"; "false";
    "ARRAY_COUNT"; "INTERNAL_CONCAT_HELP"; "INTERNAL_CONCATENATE";
    "UNIQUE_NAME";
    "ERROR_LOGGER"; "STANDARD_LOGGER"; "DEBUG_BREAK";
    "HEADER"; "ERR_HEADER"; "LOG"; "LOGF"; "ERROR"; "ERRORF";
    "PANIC"; "PANICF"; "ASSERT"; "ASSERTF"; "STATIC_ASSERT";
    "NO_DEFAULT"; "INVALID_PATH"; "NOT_IMPLEMENTED";
    "BIT_SET"; "BIT_CLEAR"; "BIT_FLIP"; "BIT_CHECK";
    "BITMASK_SET"; "BITMASK_CLEAR"; "BITMASK_FLIP";
    "BITMASK_CHECK_ALL"; "BITMASK_CHECK_ANY";
    "GENERATE_ENUM"; "GENERATE_STRING";
    "POP_10TH_ARG"; "VA_ARGS_COUNT"; "SELECT_FUNCTION"; "WITH_DEFAULTS";
    "BINARY_FORMAT_PATTERN_PREFIX"; "BINARY_FORMAT_PATTERN_DELIMITER";
    "BINARY_FORMAT_PATTERN_8"; "BINARY_FORMAT_PATTERN_16";
    "BINARY_FORMAT_PATTERN_32"; "BINARY_FORMAT_PATTERN_64";
    "BYTE_TO_BINARY_CHARS_8"; "BYTE_TO_BINARY_CHARS_16";
    "BYTE_TO_BINARY_CHARS_32"; "BYTE_TO_BINARY_CHARS_64";
    "OS_NAME"; "OS_IS_WINDOWS_32"; "OS_IS_WINDOWS_64";
    "OS_IS_WINDOWS_CYGWIN"; "OS_IS_MAC_OSX"; "OS_IS_LINUX"; "OS_IS_UNIX";
    "OS_IS_FREE_BSD"; "OS_IS_BSD"; "OS_IS_QNX"; "OS_IS_AIX";
    "OS_IS_HP_UX"; "OS_IS_SOLARIS" ].

Definition is_macro (name : string) : bool :=
  existsb (String.eqb name) macros.

End Header.

(** ** ENUMS *)

Module Enums.
Import Tokens.

Local Open Scope string_scope.
Local Open Scope list_scope.

(** What surrounds the two declarations of a canonical list: the
    object-like macros in scope there, each with its full replacement; the
    keywords of the dialect the unit is compiled in; and the other
    ordinary identifiers declared in the scope of the enum (typedef names,
    objects, functions, enumerators), wherever in that scope they are
    declared. *)
Record scope : Type := {
  replacement : string -> option (list token);
  reserved : list string;
  ordinary : list string
}.

(** [#define GENERATE_ENUM(name) name,]

    The argument is macro-expanded before it takes the place of [name]:
    an identifier that is an object-like macro gives way to the
    replacement of that macro, any other identifier stays. *)
Definition GENERATE_ENUM (s : scope) (name : string) : list token :=
  match replacement s name with
  | Some tokens => tokens ++ [Comma]
  | None => [Ident name; Comma]
  end.

(** [#define GENERATE_STRING(name) (String) { #name , sizeof(#name) },]

    [#name] is the string literal spelling the argument. *)
Definition GENERATE_STRING (name : string) : list token :=
  [LParen; Ident "String"; RParen; LBrace;
   StringLit name; Comma; Ident "sizeof"; LParen; StringLit name; RParen;
   RBrace; Comma].

(** The canonical list, written as the header's comment asks:
    [#define FOR_EACH_MY_ENUM(F) F(MY_ENUM_1) F(MY_ENUM_2) ...],
    with the names as they are spelled there. *)
Definition FOR_EACH (L : list string) (F : string -> list token)
  : list token :=
  flat_map F L.

(** Modelled from the spec: the struct [String], which the header names in
    [GENERATE_STRING] and never declares; the spec's NameTableEntry is a
    pair (string, length), filled in that order by the initializer. *)
Record String_ : Set := { entry_name : string; entry_length : Z }.

(** [sizeof] of a string literal: its characters and the terminating
    NUL. *)
Definition sizeof_literal (s : string) : Z :=
  Z.of_nat (String.length s) + 1.

(** The enumerator list between the braces of [enum { ... }]: identifiers
    separated by commas, a trailing comma allowed. *)
Fixpoint enumerator_list (ts : list token) : option (list string) :=
  match ts with
  | [] => Some []
  | [Ident n] => Some [n]
  | Ident n :: Comma :: rest => option_map (cons n) (enumerator_list rest)
  | _ => None
  end.

(** An enumerator without [=] has the value of the previous one plus 1,
    the first one has value 0. *)
Fixpoint enumerate (next : Z) (names : list string) : list (string * Z) :=
  match names with
  | [] => []
  | n :: rest => (n, next) :: enumerate (next + 1) rest
  end.

Fixpoint distinct (names : list string) : bool :=
  match names with
  | [] => true
  | n :: rest => negb (existsb (String.eqb n) rest) && distinct rest
  end.

(** The spelling of an identifier: a letter or an underscore, then
    letters, digits and underscores. *)
Definition letter (c : ascii) : bool :=
  let n := nat_of_ascii c in
  ((65 <=? n) && (n <=? 90) || (97 <=? n) && (n <=? 122) || (n =? 95))%nat.

Definition digit (c : ascii) : bool :=
  let n := nat_of_ascii c in ((48 <=? n) && (n <=? 57))%nat.

Fixpoint letters_and_digits (s : string) : bool :=
  match s with
  | EmptyString => true
  | String c rest => (letter c || digit c) && letters_and_digits rest
  end.

Definition identifier (s : string) : bool :=
  match s with
  | EmptyString => false
  | String c rest => letter c && letters_and_digits rest
  end.

(** The keywords of ISO C (C99 and C11), which are no identifiers for the
    compiler; a dialect may have more. *)
Definition keywords : list string :=
  [ "auto"; "break"; "case"; "char"; "const"; "continue"; "default"; "do";
    "double"; "else"; "enum"; "extern"; "float"; "for"; "goto"; "if";
    "inline"; "int"; "long"; "register"; "restrict"; "return"; "short";
    "signed"; "sizeof"; "static"; "struct"; "switch"; "typedef"; "union";
    "unsigned"; "void"; "volatile"; "while";
    "_Alignas"; "_Alignof"; "_Atomic"; "_Bool"; "_Complex"; "_Generic";
    "_Imaginary"; "_Noreturn"; "_Static_assert"; "_Thread_local" ].

(** A name the enum can declare as a constant: an identifier that is no
    keyword and that nothing else in the scope declares. *)
Definition declarable (s : scope) (n : string) : bool :=
  negb (existsb (String.eqb n) (reserved s))
  && negb (existsb (String.eqb n) (ordinary s)).

Definition enumerator (s : scope) (n : string) : bool :=
  identifier n && declarable s n.

(** What the two declarations of the header's comment declare or need
    beside the constants: the typedef name [MyThing], the type [String]
    and the array [MY_ENUM_STRINGS]; and the scope of the enum with
    them. *)
Definition beside : list string := ["MyThing"; "String"; "MY_ENUM_STRINGS"].

Definition around (s : scope) : scope :=
  {| replacement := replacement s;
     reserved := reserved s;
     ordinary := beside ++ ordinary s |}.

(** A name of the canonical list that reaches the enum as it is and is
    accepted there. *)
Definition fresh (s : scope) (n : string) : bool :=
  match replacement s n with
  | Some _ => false
  | None => enumerator (around s) n
  end.

(** [typedef enum { ts } MyThing;]: the constants it declares.  An empty
    list, a name declared twice and a name that cannot be declared are
    rejected by the compiler. *)
Definition typedef_enum (s : scope) (ts : list token)
  : option (list (string * Z)) :=
  match enumerator_list ts with
  | Some (n :: rest) =>
      if distinct (n :: rest) && forallb (enumerator s) (n :: rest)
      then Some (enumerate 0 (n :: rest))
      else None
  | _ => None
  end.

(** [static String MY_ENUM_STRINGS[] = { ts };]: the elements of the
    array, each a compound literal of [GENERATE_STRING]'s shape. *)
Fixpoint String_array (ts : list token) : option (list String_) :=
  match ts with
  | [] => Some []
  | LParen :: Ident ty :: RParen :: LBrace
      :: StringLit s :: Comma
      :: Ident op :: LParen :: StringLit t :: RParen
      :: RBrace :: Comma :: rest =>
      if String.eqb ty "String" && String.eqb op "sizeof"
      then option_map
             (cons {| entry_name := s; entry_length := sizeof_literal t |})
             (String_array rest)
      else None
  | _ => None
  end.

(** The two declarations of the header's comment, for a canonical
    list [L]. *)
Definition MyThing (s : scope) (L : list string)
  : option (list (string * Z)) :=
  typedef_enum (around s) (FOR_EACH L (GENERATE_ENUM s)).

Definition MY_ENUM_STRINGS (L : list string) : option (list String_) :=
  String_array (FOR_EACH L GENERATE_STRING).

End Enums.

(** ** DEFAULT ARGUMENTS *)

Module Defaults.
Import Tokens.

Local Open Scope string_scope.
Local Open Scope list_scope.

(** [#define INTERNAL_CONCAT_HELP(x, y)  x ## y], on one-token
    arguments. *)
Definition INTERNAL_CONCAT_HELP (x y : Arg) : option (list token) :=
  match x, y with
  | [a], [b] => option_map (fun t => [t]) (paste a b)
  | _, _ => None
  end.

(** [#define INTERNAL_CONCATENATE(x, y)  INTERNAL_CONCAT_HELP(x, y)] *)
Definition INTERNAL_CONCATENATE (x y : Arg) : option (list token) :=
  INTERNAL_CONCAT_HELP x y.

(** [#define POP_10TH_ARG(arg1, arg2, arg3, arg4, arg5, arg6, arg7, arg8,
    argN, ...) argN]: nine named parameters, then the variadic rest. *)
Definition POP_10TH_ARG (args : list Arg) : option Arg :=
  match args with
  | _arg1 :: _arg2 :: _arg3 :: _arg4 :: _arg5 :: _arg6 :: _arg7 :: _arg8
      :: argN :: _ => Some argN
  | _ => None
  end.

Definition sentinels : list Arg :=
  [[Number 8]; [Number 7]; [Number 6]; [Number 5]; [Number 4];
   [Number 3]; [Number 2]; [Number 1]; [Number 0]].

(** Putting a token in front of the first of a list of arguments. *)
Definition push (t : token) (args : list Arg) : list Arg :=
  match args with
  | [] => [[t]]
  | a :: rest => (t :: a) :: rest
  end.

(** The arguments of an invocation, read off the tokens after its opening
    parenthesis: a comma outside any inner parentheses separates two
    arguments, and the parenthesis that closes the invocation ends the
    last one. *)
Fixpoint arguments_from (depth : nat) (ts : list token) : list Arg :=
  match ts with
  | [] => [[]]
  | Comma :: rest =>
      match depth with
      | O => [] :: arguments_from O rest
      | S _ => push Comma (arguments_from depth rest)
      end
  | LParen :: rest => push LParen (arguments_from (S depth) rest)
  | RParen :: rest =>
      match depth with
      | O => [[]]
      | S d => push RParen (arguments_from d rest)
      end
  | t :: rest => push t (arguments_from depth rest)
  end.

Definition arguments (ts : list token) : list Arg := arguments_from O ts.

(** The depth of parentheses after a run of tokens read at some depth;
    there is none when the run has a comma outside parentheses or closes
    a parenthesis it did not open. *)
Fixpoint closes (depth : nat) (a : Arg) : option nat :=
  match a with
  | [] => Some depth
  | Comma :: rest =>
      match depth with
      | O => None
      | S _ => closes depth rest
      end
  | LParen :: rest => closes (S depth) rest
  | RParen :: rest =>
      match depth with
      | O => None
      | S d => closes d rest
      end
  | _ :: rest => closes depth rest
  end.

(** An expanded argument that is still one argument when it is read
    again: its parentheses match and it has no comma outside them. *)
Definition one_argument (a : Arg) : bool :=
  match closes O a with
  | Some O => true
  | _ => false
  end.

(** [#define VA_ARGS_COUNT(...)
    POP_10TH_ARG(__VA_ARGS__, 8, 7, 6, 5, 4, 3, 2, 1, 0)]

    [va] are the arguments of the call, macro-expanded.  They replace
    [__VA_ARGS__] with commas between them, the nine numbers follow, and
    the invocation of [POP_10TH_ARG] reads its arguments off that text,
    so that a comma an expansion has brought in separates two of them. *)
Definition VA_ARGS_COUNT (va : list Arg) : option Arg :=
  POP_10TH_ARG (arguments (separated va ++ Comma :: separated sentinels)).

(** [#define SELECT_FUNCTION(function, postfix)
    CONCATENATE(function, postfix)]

    The replacement list is scanned again for macros; [CONCATENATE] is
    not one of the header's (see [Header.macros]), so the tokens stay. *)
Definition SELECT_FUNCTION (function postfix : Arg) : list token :=
  Ident "CONCATENATE" :: LParen :: function ++ Comma :: postfix ++ [RParen].

(** [#define WITH_DEFAULTS(f, ...)
    SELECT_FUNCTION(f, VA_ARGS_COUNT(__VA_ARGS__))(__VA_ARGS__)], with
    [f] and [va] the macro-expanded arguments of the call. *)
Definition WITH_DEFAULTS (f : Arg) (va : list Arg) : option (list token) :=
  match VA_ARGS_COUNT va with
  | Some postfix =>
      Some (SELECT_FUNCTION f postfix ++ LParen :: separated va ++ [RParen])
  | None => None
  end.

(** The dispatcher of a family, as the header's comment writes it:
    [#define greet(...) WITH_DEFAULTS(greet, __VA_ARGS__)]. *)
Definition dispatcher (family : string) (va : list Arg)
  : option (list token) :=
  WITH_DEFAULTS [Ident family] va.

(** Compiling a call: the expression starts with the identifier that is
    called, and that identifier has to be declared. *)
Definition call {A : Type} (declared : list (string * A))
    (expansion : option (list token)) : build A :=
  match expansion with
  | Some (Ident callee :: LParen :: _) =>
      match lookup callee declared with
      | Some impl => Built impl
      | None => Undeclared callee
      end
  | _ => Undeclared ""
  end.

(** The family of the header's comment: [greet1] and [greet2] are
    declared and nothing else is; each is mapped to the label the
    specification gives the implementation. *)
Definition greet_family : list (string * string) :=
  [("greet1", "one-arg"); ("greet2", "two-arg")].

(** What [SELECT_FUNCTION] would be with the concatenation macro the
    header does define; used to compare with the documented behaviour. *)
Definition SELECT_FUNCTION_internal (function postfix : Arg)
  : option (list token) :=
  INTERNAL_CONCATENATE function postfix.

Definition WITH_DEFAULTS_internal (f : Arg) (va : list Arg)
  : option (list token) :=
  match VA_ARGS_COUNT va with
  | Some postfix =>
      match SELECT_FUNCTION_internal f postfix with
      | Some callee => Some (callee ++ LParen :: separated va ++ [RParen])
      | None => None
      end
  | None => None
  end.

End Defaults.

(** ** Integer operands and their types *)

Module Integers.
Import Types.

(** The unsigned typedefs of the header: [u8], [u16], [u32], [u64]. *)
Inductive unsigned : Set := U8 | U16 | U32 | U64.

Definition size_bits (t : unsigned) : Z :=
  match t with U8 => 8 | U16 => 16 | U32 => 32 | U64 => 64 end.

(** Conversion to one of them, as on assignment to an object of that
    type. *)
Definition cast (t : unsigned) : Z -> Z :=
  match t with U8 => u8 | U16 => u16 | U32 => u32 | U64 => u64 end.

(** The types operands have once promoted, with [int] of 32 bits: [u8] and
    [u16] become [int], [u32] stays [unsigned int], [u64] is the 64-bit
    unsigned type. *)
Inductive ctype : Set := Int | UInt | ULongLong.

Definition promoted (t : unsigned) : ctype :=
  match t with U8 | U16 => Int | U32 => UInt | U64 => ULongLong end.

(** Usual arithmetic conversions: the common type of two promoted
    operands. *)
Definition usual (a b : ctype) : ctype :=
  match a, b with
  | ULongLong, _ | _, ULongLong => ULongLong
  | UInt, _ | _, UInt => UInt
  | Int, Int => Int
  end.

(** Conversion of a value to the common type.  Only a value that is an
    [int] already is ever converted to [int]. *)
Definition convert (t : ctype) (v : Z) : Z :=
  match t with
  | Int => v
  | UInt => u32 v
  | ULongLong => u64 v
  end.

(** A typed value. *)
Definition operand : Set := (ctype * Z)%type.

(** Reading an object of unsigned type [t] that holds [x]. *)
Definition rvalue (t : unsigned) (x : Z) : operand := (promoted t, x).

(** [~e]: the complement in the type of [e]. *)
Definition c_compl (e : operand) : operand :=
  (fst e, convert (fst e) (Z.lnot (snd e))).

(** [a & b], [a | b], [a ^ b]: both operands are brought to the common
    type first. *)
Definition c_bitwise (op : Z -> Z -> Z) (a b : operand) : operand :=
  let t := usual (fst a) (fst b) in
  (t, op (convert t (snd a)) (convert t (snd b))).

(** [1ULL << (bit)] *)
Definition one_ULL_shifted (bit : Z) : operand :=
  (ULongLong, ull (Z.shiftl 1 bit)).

(** [typedef int8_t i8;], with the wrap-around every two's complement
    target gives the conversion, and [typedef i8 bool;] (C only). *)
Definition i8 (x : Z) : Z := (x + 2 ^ 7) mod 2 ^ 8 - 2 ^ 7.
Definition to_bool (x : Z) : Z := i8 x.

End Integers.

(** ** BIT MANIPULATION on objects *)

Module Lvalues.
Import Types Integers.

(** The macros that assign take an object [x] of unsigned type [t] and
    return the value it holds afterwards. *)

(** [#define BIT_SET(x, bit)    ((x) |=   (1ULL << (bit)))] *)
Definition BIT_SET (t : unsigned) (x bit : Z) : Z :=
  cast t (snd (c_bitwise Z.lor (rvalue t x) (one_ULL_shifted bit))).

(** [#define BIT_CLEAR(x, bit)  ((x) &=  ~(1ULL << (bit)))] *)
Definition BIT_CLEAR (t : unsigned) (x bit : Z) : Z :=
  cast t (snd (c_bitwise Z.land (rvalue t x)
                 (c_compl (one_ULL_shifted bit)))).

(** [#define BIT_FLIP(x, bit)   ((x) ^=   (1ULL << (bit)))] *)
Definition BIT_FLIP (t : unsigned) (x bit : Z) : Z :=
  cast t (snd (c_bitwise Z.lxor (rvalue t x) (one_ULL_shifted bit))).

(** [#define BITMASK_SET(x, mask)        ((x) |=   (mask))], with [mask] of
    unsigned type [tm]. *)
Definition BITMASK_SET (t tm : unsigned) (x mask : Z) : Z :=
  cast t (snd (c_bitwise Z.lor (rvalue t x) (rvalue tm mask))).

(** [#define BITMASK_CLEAR(x, mask)      ((x) &= (~(mask)))] *)
Definition BITMASK_CLEAR (t tm : unsigned) (x mask : Z) : Z :=
  cast t (snd (c_bitwise Z.land (rvalue t x) (c_compl (rvalue tm mask)))).

(** [#define BITMASK_FLIP(x, mask)       ((x) ^=   (mask))] *)
Definition BITMASK_FLIP (t tm : unsigned) (x mask : Z) : Z :=
  cast t (snd (c_bitwise Z.lxor (rvalue t x) (rvalue tm mask))).

(** [#define BITMASK_CHECK_ALL(x, mask)  (!(~(x) & (mask)))] *)
Definition BITMASK_CHECK_ALL (t tm : unsigned) (x mask : Z) : Z :=
  c_not (snd (c_bitwise Z.land (c_compl (rvalue t x)) (rvalue tm mask))).

(** [#define BITMASK_CHECK_ANY(x, mask)  ((x) &    (mask))] *)
Definition BITMASK_CHECK_ANY (t tm : unsigned) (x mask : Z) : Z :=
  snd (c_bitwise Z.land (rvalue t x) (rvalue tm mask)).

(** The values an object of type [t] can hold. *)
Definition in_range (t : unsigned) (x : Z) : Prop :=
  0 <= x < 2 ^ size_bits t.

End Lvalues.

(** ** MACRO UTILITIES: unique names *)

Module Unique.
Import Tokens Defaults.

Local Open Scope string_scope.
Local Open Scope list_scope.

(** [#define UNIQUE_NAME(name)  INTERNAL_CONCATENATE(name ## _, __LINE__)],
    the definition kept when the compiler has no [__COUNTER__].
    [INTERNAL_CONCATENATE] receives [__LINE__] already replaced by the
    number of the line. *)
Definition UNIQUE_NAME_LINE (name : string) (line : nat)
  : option (list token) :=
  match paste (Ident name) (Ident "_") with
  | Some name_ => INTERNAL_CONCATENATE [name_] [Number line]
  | None => None
  end.

(** [#define UNIQUE_NAME(name)  INTERNAL_CONCATENATE(name ## _, __COUNTER__)]:
    [__COUNTER__] is replaced by the value of the counter, which is then
    one more. *)
Definition UNIQUE_NAME_COUNTER (name : string) (counter : nat)
  : option (list token) * nat :=
  (match paste (Ident name) (Ident "_") with
   | Some name_ => INTERNAL_CONCATENATE [name_] [Number counter]
   | None => None
   end,
   S counter).

(** The uses of [UNIQUE_NAME] in a translation unit, in order, each with
    the name it is given. *)
Fixpoint expansions (names : list string) (counter : nat)
  : list (option (list token)) * nat :=
  match names with
  | [] => ([], counter)
  | name :: rest =>
      let (first, counter1) := UNIQUE_NAME_COUNTER name counter in
      let (others, counter2) := expansions rest counter1 in
      (first :: others, counter2)
  end.

(** Whether a character occurs in a string. *)
Fixpoint occurs (c : ascii) (s : string) : bool :=
  match s with
  | EmptyString => false
  | String d rest => Ascii.eqb c d || occurs c rest
  end.

End Unique.

(** ** DEBUGGING, LOGGING AND ASSERTIONS *)

Module Logging.
Import Types.

Local Open Scope string_scope.
Local Open Scope list_scope.

Inductive stream : Set := stdout | stderr.

Inductive signal : Set := SIGABRT | SIGTRAP | SIGINT.

(** An argument after the format of a [printf] call. *)
Inductive argument : Set :=
| Text (s : string)
| Integer (n : Z)
| Character (c : ascii).

(** What an expression built from the macros does, in order. *)
Inductive event : Set :=
| Printf (to : stream) (format : string) (args : list argument)
| Fflush (s : stream)
| Raise (sig : signal).

(** The escape [\n]. *)
Definition newline : string := String (ascii_of_nat 10) EmptyString.

Section At.

(** The values of [__FILE__] and [__LINE__] where the macro is used. *)
Variable file : string.
Variable line : Z.

(** [#define ERROR_LOGGER(...) fprintf(stderr, __VA_ARGS__)] *)
Definition ERROR_LOGGER (format : string) (args : list argument)
  : list event :=
  [Printf stderr format args].

(** [#define STANDARD_LOGGER(...) printf(__VA_ARGS__)] *)
Definition STANDARD_LOGGER (format : string) (args : list argument)
  : list event :=
  [Printf stdout format args].

(** [#define DEBUG_BREAK() (raise(SIGABRT))] *)
Definition DEBUG_BREAK : list event := [Raise SIGABRT].

(** [#define HEADER(group)
    STANDARD_LOGGER("%s:%d [" #group "]: ", __FILE__, __LINE__)] *)
Definition HEADER (group : string) : list event :=
  STANDARD_LOGGER ("%s:%d [" ++ group ++ "]: ")%string
    [Text file; Integer line].

(** [#define ERR_HEADER(group)
    ERROR_LOGGER("%s:%d [" #group "]: ", __FILE__, __LINE__)] *)
Definition ERR_HEADER (group : string) : list event :=
  ERROR_LOGGER ("%s:%d [" ++ group ++ "]: ")%string
    [Text file; Integer line].

(** [#define LOG(string)  (HEADER(LOG), STANDARD_LOGGER(string "\n"))] *)
Definition LOG (string : String.string) : list event :=
  HEADER "LOG" ++ STANDARD_LOGGER (string ++ newline)%string [].

(** [#define LOGF(format, ...)
    (HEADER(LOG), STANDARD_LOGGER(format "\n", __VA_ARGS__))] *)
Definition LOGF (format : string) (args : list argument) : list event :=
  HEADER "LOG" ++ STANDARD_LOGGER (format ++ newline)%string args.

(** [#define ERROR(group, string)  (ERR_HEADER(group),
    ERROR_LOGGER(string "\n"), fflush(stderr), DEBUG_BREAK())] *)
Definition ERROR (group string : String.string) : list event :=
  ERR_HEADER group
    ++ ERROR_LOGGER (string ++ newline)%string []
    ++ [Fflush stderr]
    ++ DEBUG_BREAK.

(** [#define ERRORF(group, format, ...)  (ERR_HEADER(group),
    ERROR_LOGGER(format "\n", __VA_ARGS__), DEBUG_BREAK())] *)
Definition ERRORF (group format : string) (args : list argument)
  : list event :=
  ERR_HEADER group
    ++ ERROR_LOGGER (format ++ newline)%string args
    ++ DEBUG_BREAK.

(** [#define PANIC(string)       ERROR(PANIC, string)] *)
Definition PANIC (string : String.string) : list event :=
  ERROR "PANIC" string.

(** [#define PANICF(format, ...) ERRORF(PANIC, format, __VA_ARGS__)] *)
Definition PANICF (format : string) (args : list argument) : list event :=
  ERRORF "PANIC" format args.

(** [#define ASSERT(x)
    ((x) ? 0 : (ERROR(ASSERT, "'" #x "' is false.\n")))]

    [x_text] is the spelling of the argument, which [#x] turns into a
    string. *)
Definition ASSERT (x : Z) (x_text : string) : list event :=
  c_cond x []
    (ERROR "ASSERT" ("'" ++ x_text ++ "' is false." ++ newline)%string).

(** [#define ASSERTF(x, ...) ((x) ? 0 : (ERR_HEADER(ASSERT),
    ERROR_LOGGER("'" #x "' is false. "),  ERROR_LOGGER(__VA_ARGS__),
    ERROR_LOGGER("\n"), DEBUG_BREAK()))] *)
Definition ASSERTF (x : Z) (x_text : string) (format : string)
    (args : list argument) : list event :=
  c_cond x []
    (ERR_HEADER "ASSERT"
       ++ ERROR_LOGGER ("'" ++ x_text ++ "' is false. ")%string []
       ++ ERROR_LOGGER format args
       ++ ERROR_LOGGER newline []
       ++ DEBUG_BREAK).

(** [#define NO_DEFAULT
    default: ERROR(NO_DEFAULT, "Default case was unexpectedly hit.")]:
    what the [default] label runs. *)
Definition NO_DEFAULT : list event :=
  ERROR "NO_DEFAULT" "Default case was unexpectedly hit.".

(** [#define INVALID_PATH    ERROR(INVALID_PATH, "Invalid path.")] *)
Definition INVALID_PATH : list event :=
  ERROR "INVALID_PATH" "Invalid path.".

(** [#define NOT_IMPLEMENTED ERROR(NOT_IMPLEMENTED, "Not implemented.")] *)
Definition NOT_IMPLEMENTED : list event :=
  ERROR "NOT_IMPLEMENTED" "Not implemented.".

End At.

(** The streams an expression writes to, and the signals it raises. *)
Definition writes_to (s : stream) (e : event) : bool :=
  match e with
  | Printf stdout _ _ => match s with stdout => true | stderr => false end
  | Printf stderr _ _ => match s with stdout => false | stderr => true end
  | _ => false
  end.

Definition raises (e : event) : bool :=
  match e with Raise _ => true | _ => false end.

(** A call of [printf] passes as many arguments as its format has
    conversions. *)
Definition well_formed (e : event) : bool :=
  match e with
  | Printf _ format args =>
      Nat.eqb (Formatting.placeholders format) (List.length args)
  | _ => true
  end.

End Logging.

(** ** OS DETECTION *)

Module OS.

Local Open Scope string_scope.
Local Open Scope list_scope.

(** The macros the compiler and the system headers predefine: absent, or
    defined with a value. *)
Record platform : Set := {
  _WIN32 : option Z;
  _WIN64 : option Z;
  __CYGWIN__ : option Z;
  __APPLE__ : option Z;
  __MACH__ : option Z;
  __linux__ : option Z;
  __unix : option Z;
  __unix__ : option Z;
  __FreeBSD__ : option Z;
  BSD : option Z;
  __QNX__ : option Z;
  _AIX : option Z;
  __hpux : option Z;
  __sun : option Z
}.

(** [#ifdef M] and [#if defined(M)] *)
Definition defined (m : option Z) : bool :=
  match m with Some _ => true | None => false end.

(** [#if M]: an identifier that is not a macro counts as 0. *)
Definition nonzero (m : option Z) : bool :=
  match m with Some v => negb (v =? 0)%Z | None => false end.

(** The twelve conditional blocks, in file order: the condition, the
    replacement of [OS_NAME] and the [OS_IS_...] macro defined as 1. *)
Definition blocks : list ((platform -> bool) * (string * string)) :=
  [ (fun p => defined (_WIN32 p), ("Windows 32-bit", "OS_IS_WINDOWS_32"));
    (fun p => nonzero (_WIN64 p), ("Windows 64-bit", "OS_IS_WINDOWS_64"));
    (fun p => nonzero (__CYGWIN__ p),
      ("Windows 32-bit (Cygwin)", "OS_IS_WINDOWS_CYGWIN"));
    (fun p => nonzero (__APPLE__ p) || nonzero (__MACH__ p),
      ("Mac OSX", "OS_IS_MAC_OSX"));
    (fun p => nonzero (__linux__ p), ("Linux", "OS_IS_LINUX"));
    (fun p => nonzero (__unix p) || nonzero (__unix__ p),
      ("Unix", "OS_IS_UNIX"));
    (fun p => nonzero (__FreeBSD__ p), ("FreeBSD", "OS_IS_FREE_BSD"));
    (fun p => defined (BSD p),
      ("BSD (DragonFly BSD, FreeBSD, OpenBSD, NetBSD)", "OS_IS_BSD"));
    (fun p => defined (__QNX__ p), ("QNX", "OS_IS_QNX"));
    (fun p => nonzero (_AIX p), ("AIX", "OS_IS_AIX"));
    (fun p => nonzero (__hpux p), ("HP-UX", "OS_IS_HP_UX"));
    (fun p => nonzero (__sun p), ("Solaris", "OS_IS_SOLARIS")) ].

(** The macros of this part after some of the blocks: the replacement of
    [OS_NAME] if it is defined, the [OS_IS_...] macros defined so far, and
    how many times [OS_NAME] was defined again with another replacement. *)
Record detected : Set := {
  OS_NAME : option string;
  OS_IS : list string;
  redefinitions : nat
}.

Definition nothing : detected :=
  {| OS_NAME := None; OS_IS := []; redefinitions := 0 |}.

Definition block (p : platform) (st : detected)
    (b : (platform -> bool) * (string * string)) : detected :=
  if fst b p
  then {| OS_NAME := Some (fst (snd b));
          OS_IS := OS_IS st ++ [snd (snd b)];
          redefinitions :=
            match OS_NAME st with
            | Some _ => S (redefinitions st)
            | None => redefinitions st
            end |}
  else st.

Definition detect (p : platform) : detected :=
  fold_left (block p) blocks nothing.

(** A platform with what a compiler for Linux predefines among these
    macros: [__linux__], [__unix] and [__unix__], each as 1. *)
Definition linux : platform :=
  {| _WIN32 := None; _WIN64 := None; __CYGWIN__ := None;
     __APPLE__ := None; __MACH__ := None;
     __linux__ := Some 1%Z; __unix := Some 1%Z; __unix__ := Some 1%Z;
     __FreeBSD__ := None; BSD := None; __QNX__ := None; _AIX := None;
     __hpux := None; __sun := None |}.

(** Whether the condition of a block holds on a platform. *)
Definition holds (p : platform) (b : (platform -> bool) * (string * string))
  : bool :=
  fst b p.

(** What every block keeps: [OS_NAME] is defined exactly when some
    [OS_IS_...] macro is, and it was defined once more than it was
    redefined. *)
Definition consistent (st : detected) : Prop :=
  (OS_NAME st = None <-> OS_IS st = [])
  /\ redefinitions st = Nat.pred (List.length (OS_IS st)).

End OS.

(** ** FORMATTING: the call of [printf] *)

Module Sink.

Local Open Scope string_scope.
Local Open Scope list_scope.

Definition emit (c : ascii) (r : option (string * list ascii))
  : option (string * list ascii) :=
  match r with
  | Some (out, rest) => Some (String c out, rest)
  | None => None
  end.

(** [printf(format, args...)] with character arguments, as in the header's
    [printf(BINARY_FORMAT_PATTERN_64 "\n", BYTE_TO_BINARY_CHARS_64(x))]:
    [%c] prints the next argument, [%%] a percent sign, any other
    character itself.  The result is the text and the arguments left
    over; there is none when an argument is missing or the conversion is
    not [%c]. *)
Fixpoint printf (format : string) (args : list ascii)
  : option (string * list ascii) :=
  match format with
  | EmptyString => Some (EmptyString, args)
  | String "%" rest =>
      match rest with
      | String "c" rest' =>
          match args with
          | a :: args' => emit a (printf rest' args')
          | [] => None
          end
      | String "%" rest' => emit "%" (printf rest' args)
      | _ => None
      end
  | String c rest => emit c (printf rest args)
  end.

(** The text of a binary literal of [n] bytes: ["0b"], then the bytes of
    [v] from the most significant one, eight digits each, with ["_"]
    between them. *)
Fixpoint byte_texts (n : nat) (v : Z) : list string :=
  match n with
  | O => []
  | S m =>
      string_of_list_ascii
        (Formatting.big_endian_bits 8 (Z.shiftr v (8 * Z.of_nat m)%Z))
      :: byte_texts m v
  end.

Definition binary_literal (n : nat) (v : Z) : string :=
  "0b" ++ String.concat "_" (byte_texts n v).

End Sink.

(** ** FORMATTING with a prefix and a delimiter of the user's *)

Module Configured.

Local Open Scope string_scope.

Section Configuration.

(** [BINARY_FORMAT_PATTERN_PREFIX] and [BINARY_FORMAT_PATTERN_DELIMITER],
    which the header defines only when the user has not ([#ifndef]). *)
Variable BINARY_FORMAT_PATTERN_PREFIX : string.
Variable BINARY_FORMAT_PATTERN_DELIMITER : string.

Definition BINARY_FORMAT_PATTERN_8 : string :=
  BINARY_FORMAT_PATTERN_PREFIX ++ "%c%c%c%c%c%c%c%c".

Definition BINARY_FORMAT_PATTERN_16 : string :=
  BINARY_FORMAT_PATTERN_PREFIX ++ "%c%c%c%c%c%c%c%c"
    ++ BINARY_FORMAT_PATTERN_DELIMITER ++ "%c%c%c%c%c%c%c%c".

Definition BINARY_FORMAT_PATTERN_32 : string :=
  BINARY_FORMAT_PATTERN_PREFIX ++ "%c%c%c%c%c%c%c%c"
    ++ BINARY_FORMAT_PATTERN_DELIMITER ++ "%c%c%c%c%c%c%c%c"
    ++ BINARY_FORMAT_PATTERN_DELIMITER ++ "%c%c%c%c%c%c%c%c"
    ++ BINARY_FORMAT_PATTERN_DELIMITER ++ "%c%c%c%c%c%c%c%c".

Definition BINARY_FORMAT_PATTERN_64 : string :=
  BINARY_FORMAT_PATTERN_PREFIX ++ "%c%c%c%c%c%c%c%c"
    ++ BINARY_FORMAT_PATTERN_DELIMITER ++ "%c%c%c%c%c%c%c%c"
    ++ BINARY_FORMAT_PATTERN_DELIMITER ++ "%c%c%c%c%c%c%c%c"
    ++ BINARY_FORMAT_PATTERN_DELIMITER ++ "%c%c%c%c%c%c%c%c"
    ++ BINARY_FORMAT_PATTERN_DELIMITER ++ "%c%c%c%c%c%c%c%c"
    ++ BINARY_FORMAT_PATTERN_DELIMITER ++ "%c%c%c%c%c%c%c%c"
    ++ BINARY_FORMAT_PATTERN_DELIMITER ++ "%c%c%c%c%c%c%c%c"
    ++ BINARY_FORMAT_PATTERN_DELIMITER ++ "%c%c%c%c%c%c%c%c".

Definition BINARY_FORMAT_PATTERN (w : Formatting.width) : string :=
  match w with
  | Formatting.W8 => BINARY_FORMAT_PATTERN_8
  | Formatting.W16 => BINARY_FORMAT_PATTERN_16
  | Formatting.W32 => BINARY_FORMAT_PATTERN_32
  | Formatting.W64 => BINARY_FORMAT_PATTERN_64
  end.

End Configuration.

End Configured.

(** ** The replacement lists of the header, as text *)

Module Text.
Import Tokens Enums.

Local Open Scope string_scope.
Local Open Scope list_scope.

(** The macros below are the ones of the header again, this time as the
    tokens the preprocessor puts in their place; the macros of the header
    inside them are replaced in turn, and the names of the compiler and of
    the system headers ([__FILE__], [stderr], [SIGABRT], ...) are left as
    they are spelled. *)

(** [#define BIT_CHECK(x, bit)  (!!((x) & (1ULL << (bit))))] *)
Definition BIT_CHECK (x bit : Arg) : list token :=
  [LParen; Other "!"; Other "!"; LParen; LParen] ++ x
    ++ [RParen; Other "&"; LParen; Other "1ULL"; Other "<<"; LParen] ++ bit
    ++ [RParen; RParen; RParen; RParen].

(** One of the eight expressions of [BYTE_TO_BINARY_CHARS_8]:
    [BIT_CHECK((u8)(x), bit) ? '1' : '0']. *)
Definition bit_character (x : Arg) (bit : nat) : list token :=
  BIT_CHECK ([LParen; Ident "u8"; RParen; LParen] ++ x ++ [RParen])
    [Number bit]
    ++ [Other "?"; Other "'1'"; Other ":"; Other "'0'"].

(** [#define BYTE_TO_BINARY_CHARS_8(x)  BIT_CHECK((u8)(x), 7) ? '1' : '0',
    BIT_CHECK((u8)(x), 6) ? '1' : '0', ..., BIT_CHECK((u8)(x), 0) ? '1' :
    '0'] *)
Definition BYTE_TO_BINARY_CHARS_8 (x : Arg) : list token :=
  separated
    [ bit_character x 7; bit_character x 6; bit_character x 5;
      bit_character x 4; bit_character x 3; bit_character x 2;
      bit_character x 1; bit_character x 0 ].

(** [#define ERROR_LOGGER(...) fprintf(stderr, __VA_ARGS__)] *)
Definition ERROR_LOGGER (va : list token) : list token :=
  [Ident "fprintf"; LParen; Ident "stderr"; Comma] ++ va ++ [RParen].

(** [#define DEBUG_BREAK() (raise(SIGABRT))] *)
Definition DEBUG_BREAK : list token :=
  [LParen; Ident "raise"; LParen; Ident "SIGABRT"; RParen; RParen].

(** [#define ERR_HEADER(group)
    ERROR_LOGGER("%s:%d [" #group "]: ", __FILE__, __LINE__)] *)
Definition ERR_HEADER (group : string) : list token :=
  ERROR_LOGGER
    [StringLit "%s:%d ["; StringLit group; StringLit "]: "; Comma;
     Ident "__FILE__"; Comma; Ident "__LINE__"].

(** [#define ERROR(group, string)  (ERR_HEADER(group),
    ERROR_LOGGER(string "\n"), fflush(stderr), DEBUG_BREAK())] *)
Definition ERROR (group : string) (string : list token) : list token :=
  [LParen] ++ ERR_HEADER group
    ++ [Comma] ++ ERROR_LOGGER (string ++ [StringLit "\n"])
    ++ [Comma; Ident "fflush"; LParen; Ident "stderr"; RParen; Comma]
    ++ DEBUG_BREAK ++ [RParen].

(** The string literals of a pattern of [n] byte groups, after the
    prefix. *)
Fixpoint byte_groups (n : nat) : list token :=
  match n with
  | O => []
  | S O => [StringLit "%c%c%c%c%c%c%c%c"]
  | S m => StringLit "%c%c%c%c%c%c%c%c" :: StringLit "_" :: byte_groups m
  end.

(** The object-like macros of the header, compiled as C with nothing
    defined by the user beforehand, each with its replacement; [OS_NAME]
    and the [OS_IS_...] macros are the ones the platform defines. *)
Definition object_macros (p : OS.platform) : list (string * list token) :=
  [ ("PREAMBLE_HEADER_INCLUDE_GUARD", []);
    ("true", [Number 1]);
    ("false", [Number 0]);
    ("NO_DEFAULT",
      Ident "default" :: Other ":"
        :: ERROR "NO_DEFAULT"
             [StringLit "Default case was unexpectedly hit."]);
    ("INVALID_PATH", ERROR "INVALID_PATH" [StringLit "Invalid path."]);
    ("NOT_IMPLEMENTED",
      ERROR "NOT_IMPLEMENTED" [StringLit "Not implemented."]);
    ("BINARY_FORMAT_PATTERN_PREFIX", [StringLit "0b"]);
    ("BINARY_FORMAT_PATTERN_DELIMITER", [StringLit "_"]);
    ("BINARY_FORMAT_PATTERN_8", StringLit "0b" :: byte_groups 1);
    ("BINARY_FORMAT_PATTERN_16", StringLit "0b" :: byte_groups 2);
    ("BINARY_FORMAT_PATTERN_32", StringLit "0b" :: byte_groups 4);
    ("BINARY_FORMAT_PATTERN_64", StringLit "0b" :: byte_groups 8) ]
  ++ match OS.OS_NAME (OS.detect p) with
     | Some name => [("OS_NAME", [StringLit name])]
     | None => []
     end
  ++ map (fun flag => (flag, [Number 1])) (OS.OS_IS (OS.detect p)).

(** The names the header declares with [typedef]. *)
Definition typedefs : list string :=
  [ "u8"; "u16"; "u32"; "u64"; "i8"; "i16"; "i32"; "i64"; "f32"; "f64";
    "usize"; "rune"; "utf8"; "bool" ].

(** What the header alone puts around an enum, compiled as ISO C; a unit
    that includes it adds its own macros and declarations, those of the
    system headers, and the macros and keywords of its compiler. *)
Definition preamble (p : OS.platform) : scope :=
  {| replacement := fun name => lookup name (object_macros p);
     reserved := keywords;
     ordinary := typedefs |}.

End Text.

(** * Properties *)

(** ** BIT_CHECK and the bits of an integer *)

Section BitFacts.
Import Types Bits Formatting.

Lemma land_pow2 (a i : Z) :
  0 <= i -> Z.land a (2 ^ i) = if Z.testbit a i then 2 ^ i else 0.
Proof.
  intros Hi. apply Z.bits_inj'. intros n Hn.
  rewrite Z.land_spec, Z.pow2_bits_eqb by assumption.
  destruct (Z.eqb_spec i n) as [->|Hne].
  - destruct (Z.testbit a n) eqn:E; cbn.
    + now rewrite Z.pow2_bits_true.
    + now rewrite Z.bits_0.
  - rewrite andb_false_r.
    destruct (Z.testbit a i).
    + now rewrite Z.pow2_bits_false.
    + now rewrite Z.bits_0.
Qed.

Lemma pow2_small (i : Z) : 0 <= i < 64 -> ull (Z.shiftl 1 i) = 2 ^ i.
Proof.
  intros Hi. unfold ull. rewrite Z.shiftl_1_l.
  apply Z.mod_small. split.
  - apply Z.pow_nonneg; lia.
  - apply Z.pow_lt_mono_r; lia.
Qed.

Lemma BIT_CHECK_spec (x i : Z) :
  0 <= i < 64 -> BIT_CHECK x i = Z.b2z (Z.testbit x i).
Proof.
  intros Hi. unfold BIT_CHECK.
  rewrite pow2_small, land_pow2 by lia.
  unfold ull. rewrite Z.mod_pow2_bits_low by lia.
  assert (0 < 2 ^ i) by (apply Z.pow_pos_nonneg; lia).
  unfold c_not.
  destruct (Z.testbit x i); cbn.
  - destruct (Z.eqb_spec (2 ^ i) 0); [lia | reflexivity].
  - reflexivity.
Qed.

Lemma BIT_CHECK_u8 (x i : Z) :
  0 <= i < 8 ->
  c_cond (BIT_CHECK (u8 x) i) "1"%char "0"%char = bit_char (Z.testbit x i).
Proof.
  intros Hi. rewrite BIT_CHECK_spec by lia.
  unfold u8. rewrite Z.mod_pow2_bits_low by lia.
  now destruct (Z.testbit x i).
Qed.

Lemma big_endian_bits_length (n : nat) (x : Z) :
  List.length (big_endian_bits n x) = n.
Proof. induction n; cbn; congruence. Qed.

Lemma big_endian_bits_ext (n : nat) (x y : Z) :
  (forall i, 0 <= i < Z.of_nat n -> Z.testbit x i = Z.testbit y i) ->
  big_endian_bits n x = big_endian_bits n y.
Proof.
  induction n as [|n IH]; intros H; cbn [big_endian_bits].
  - reflexivity.
  - rewrite H by lia. f_equal. apply IH. intros i Hi. apply H. lia.
Qed.

Lemma big_endian_bits_mod (n m : nat) (x : Z) :
  (n <= m)%nat ->
  big_endian_bits n (x mod 2 ^ Z.of_nat m) = big_endian_bits n x.
Proof.
  intros Hnm. apply big_endian_bits_ext. intros i Hi.
  apply Z.mod_pow2_bits_low. lia.
Qed.

Lemma big_endian_bits_app (n m : nat) (x : Z) :
  big_endian_bits (n + m) x
  = big_endian_bits n (Z.shiftr x (Z.of_nat m)) ++ big_endian_bits m x.
Proof.
  induction n as [|n IH]; cbn [big_endian_bits Nat.add app].
  - reflexivity.
  - rewrite IH, Z.shiftr_spec by lia.
    now rewrite Nat2Z.inj_add.
Qed.

Lemma big_endian_bits_nth (n i : nat) (x : Z) :
  (i < n)%nat ->
  nth_error (big_endian_bits n x) i
  = Some (bit_char (Z.testbit x (Z.of_nat (n - 1 - i)))).
Proof.
  revert i. induction n as [|n IH]; intros i Hi; [lia|].
  cbn [big_endian_bits]. destruct i as [|i]; cbn [nth_error].
  - now replace (S n - 1 - 0)%nat with n by lia.
  - rewrite IH by lia. now replace (S n - 1 - S i)%nat with (n - 1 - i)%nat by lia.
Qed.

Lemma mod_pow2_succ (x : Z) (n : nat) :
  x mod 2 ^ Z.of_nat (S n)
  = Z.b2z (Z.testbit x (Z.of_nat n)) * 2 ^ Z.of_nat n + x mod 2 ^ Z.of_nat n.
Proof.
  rewrite Nat2Z.inj_succ, Z.pow_succ_r by lia.
  rewrite (Z.mul_comm 2), Z.rem_mul_r by lia.
  rewrite Z.testbit_spec' by lia. lia.
Qed.

Lemma char_bit_bit_char (b : bool) : char_bit (bit_char b) = Z.b2z b.
Proof. now destruct b. Qed.

Lemma reassemble_from (n : nat) (x acc : Z) :
  fold_left (fun a c => 2 * a + char_bit c) (big_endian_bits n x) acc
  = acc * 2 ^ Z.of_nat n + x mod 2 ^ Z.of_nat n.
Proof.
  revert acc. induction n as [|n IH]; intros acc.
  - cbn. rewrite Z.mod_1_r. lia.
  - cbn [big_endian_bits fold_left].
    rewrite IH, char_bit_bit_char, mod_pow2_succ.
    rewrite Nat2Z.inj_succ, Z.pow_succ_r by lia. ring.
Qed.

Lemma reassemble_big_endian_bits (n : nat) (x : Z) :
  reassemble (big_endian_bits n x) = x mod 2 ^ Z.of_nat n.
Proof. unfold reassemble. now rewrite reassemble_from. Qed.

(** Each formatter is the big-endian expansion at its width. *)

Lemma chars_8_bits (x : Z) :
  BYTE_TO_BINARY_CHARS_8 x = big_endian_bits 8 x.
Proof.
  unfold BYTE_TO_BINARY_CHARS_8.
  rewrite !BIT_CHECK_u8 by lia. reflexivity.
Qed.

Lemma chars_16_bits (x : Z) :
  BYTE_TO_BINARY_CHARS_16 x = big_endian_bits 16 x.
Proof.
  unfold BYTE_TO_BINARY_CHARS_16. rewrite !chars_8_bits.
  change 8 with (Z.of_nat 8).
  rewrite <- (big_endian_bits_app 8 8).
  apply (big_endian_bits_mod 16 16). lia.
Qed.

Lemma chars_32_bits (x : Z) :
  BYTE_TO_BINARY_CHARS_32 x = big_endian_bits 32 x.
Proof.
  unfold BYTE_TO_BINARY_CHARS_32. rewrite !chars_16_bits.
  change 16 with (Z.of_nat 16).
  rewrite <- (big_endian_bits_app 16 16).
  apply (big_endian_bits_mod 32 32). lia.
Qed.

Lemma chars_64_bits (x : Z) :
  BYTE_TO_BINARY_CHARS_64 x = big_endian_bits 64 x.
Proof.
  unfold BYTE_TO_BINARY_CHARS_64. rewrite !chars_32_bits.
  change 32 with (Z.of_nat 32).
  rewrite <- (big_endian_bits_app 32 32).
  apply (big_endian_bits_mod 64 64). lia.
Qed.

Lemma chars_bits (w : width) (x : Z) :
  BYTE_TO_BINARY_CHARS w x = big_endian_bits (bits w) x.
Proof.
  destruct w; cbn [BYTE_TO_BINARY_CHARS bits].
  - apply chars_8_bits.
  - apply chars_16_bits.
  - apply chars_32_bits.
  - apply chars_64_bits.
Qed.

End BitFacts.

(** ** FORMATTING: the values and the pattern *)

Section FormattingFacts.
Import Types Bits Formatting.

Lemma chars_length (w : width) (v : Z) :
  List.length (BYTE_TO_BINARY_CHARS w v) = bits w.
Proof. rewrite chars_bits. apply big_endian_bits_length. Qed.

Lemma big_endian_bits_lookup (n i : nat) (x : Z) :
  nth_error (big_endian_bits n x) i
  = if (i <? n)%nat
    then Some (bit_char (Z.testbit x (Z.of_nat (n - 1 - i))))
    else None.
Proof.
  destruct (Nat.ltb_spec i n) as [Hlt|Hge].
  - now apply big_endian_bits_nth.
  - apply nth_error_None. now rewrite big_endian_bits_length.
Qed.

(** Byte group [j] of the expansion at [8 * n] bits is byte
    [n - 1 - j] of the value. *)
Lemma big_endian_bits_group (n j : nat) (x : Z) :
  (j < n)%nat ->
  firstn 8 (skipn (8 * j) (big_endian_bits (8 * n) x))
  = big_endian_bits 8 (Z.shiftr x (Z.of_nat (8 * (n - 1 - j)))).
Proof.
  intros Hj.
  replace (8 * n)%nat with (8 * j + (8 + 8 * (n - 1 - j)))%nat by lia.
  rewrite (big_endian_bits_app (8 * j)), skipn_app.
  rewrite big_endian_bits_length, Nat.sub_diag.
  rewrite skipn_all2 by (rewrite big_endian_bits_length; lia).
  cbn [app skipn].
  rewrite (big_endian_bits_app 8), firstn_app.
  rewrite big_endian_bits_length, Nat.sub_diag.
  rewrite firstn_all2 by (rewrite big_endian_bits_length; lia).
  cbn [firstn]. apply app_nil_r.
Qed.

Lemma bits_bytes (w : width) : bits w = (8 * (bits w / 8))%nat.
Proof. now destruct w. Qed.

(** The example of the specification: the byte 0b10110000. *)
Example format_176 :
  BINARY_FORMAT_PATTERN_8 = "0b%c%c%c%c%c%c%c%c"%string
  /\ BYTE_TO_BINARY_CHARS_8 176
     = ["1"; "0"; "1"; "1"; "0"; "0"; "0"; "0"]%char.
Proof. split; reflexivity. Qed.

(** A negative argument is formatted through its two's complement. *)
Example format_minus_2 :
  BYTE_TO_BINARY_CHARS_16 (-2)
  = ["1"; "1"; "1"; "1"; "1"; "1"; "1"; "1";
     "1"; "1"; "1"; "1"; "1"; "1"; "1"; "0"]%char
  /\ reassemble (BYTE_TO_BINARY_CHARS_16 (-2)) = 65534.
Proof. split; reflexivity. Qed.

(** C1. For each of the four widths and every integer [v], the values
    produced by [BYTE_TO_BINARY_CHARS_w] are exactly [w] characters, and the
    character at position [i] is ['1'] when bit [w - 1 - i] of [v] reduced to
    its low [w] bits is set and ['0'] otherwise; there is no character past
    position [w - 1]. *)
Theorem C1_values_big_endian (w : width) (v : Z) :
  List.length (BYTE_TO_BINARY_CHARS w v) = bits w
  /\ BYTE_TO_BINARY_CHARS w v
     = big_endian_bits (bits w) (v mod 2 ^ Z.of_nat (bits w))
  /\ forall i : nat,
       nth_error (BYTE_TO_BINARY_CHARS w v) i
       = if (i <? bits w)%nat
         then Some (if Z.testbit (v mod 2 ^ Z.of_nat (bits w))
                                 (Z.of_nat (bits w - 1 - i))
                    then "1"%char else "0"%char)
         else None.
Proof.
  assert (E : BYTE_TO_BINARY_CHARS w v
              = big_endian_bits (bits w) (v mod 2 ^ Z.of_nat (bits w))).
  { rewrite chars_bits. symmetry. now apply big_endian_bits_mod. }
  split; [apply chars_length|]. split; [exact E|].
  intros i. rewrite E. apply big_endian_bits_lookup.
Qed.

(** C5. The width-16 values are the width-8 values of [v >> 8] followed by
    the width-8 values of [v]; likewise width 32 from width 16 with a shift
    by 16, and width 64 from width 32 with a shift by 32. *)
Theorem C5_composition (v : Z) :
  BYTE_TO_BINARY_CHARS_16 v
  = BYTE_TO_BINARY_CHARS_8 (Z.shiftr v 8) ++ BYTE_TO_BINARY_CHARS_8 v
  /\ BYTE_TO_BINARY_CHARS_32 v
     = BYTE_TO_BINARY_CHARS_16 (Z.shiftr v 16) ++ BYTE_TO_BINARY_CHARS_16 v
  /\ BYTE_TO_BINARY_CHARS_64 v
     = BYTE_TO_BINARY_CHARS_32 (Z.shiftr v 32) ++ BYTE_TO_BINARY_CHARS_32 v.
Proof.
  rewrite chars_64_bits, !chars_32_bits, !chars_16_bits, !chars_8_bits.
  repeat split.
  - exact (big_endian_bits_app 8 8 v).
  - exact (big_endian_bits_app 16 16 v).
  - exact (big_endian_bits_app 32 32 v).
Qed.

(** C6. Reading the values of [BYTE_TO_BINARY_CHARS_w] back as bits, most
    significant first, gives [v mod 2^w], for each of the four widths and
    every integer [v]. *)
Theorem C6_round_trip (w : width) (v : Z) :
  reassemble (BYTE_TO_BINARY_CHARS w v) = v mod 2 ^ Z.of_nat (bits w).
Proof. rewrite chars_bits. apply reassemble_big_endian_bits. Qed.

(** C7. For each of the four widths, [BINARY_FORMAT_PATTERN_w] is ["0b"]
    followed by [w / 8] groups of eight ["%c"] joined by ["_"]; it has [w]
    placeholders, as many as [BYTE_TO_BINARY_CHARS_w] has values; and the
    eight values that group [j] consumes are the bits of byte
    [w / 8 - 1 - j] of the value, so the most significant byte comes
    first. *)
Theorem C7_pattern_shape (w : width) (v : Z) :
  BINARY_FORMAT_PATTERN w = ("0b" ++ groups "_" (bits w / 8))%string
  /\ placeholders (BINARY_FORMAT_PATTERN w) = bits w
  /\ placeholders (BINARY_FORMAT_PATTERN w)
     = List.length (BYTE_TO_BINARY_CHARS w v)
  /\ forall j : nat,
       firstn 8 (skipn (8 * j) (BYTE_TO_BINARY_CHARS w v))
       = if (j <? bits w / 8)%nat
         then big_endian_bits 8
                (Z.shiftr v (Z.of_nat (8 * (bits w / 8 - 1 - j))))
         else [].
Proof.
  split; [now destruct w|].
  split; [now destruct w|].
  split; [rewrite chars_length; now destruct w|].
  intros j. rewrite chars_bits.
  destruct (Nat.ltb_spec j (bits w / 8)) as [Hlt|Hge].
  - rewrite (bits_bytes w) at 1. now apply big_endian_bits_group.
  - rewrite skipn_all2; [reflexivity|].
    rewrite big_endian_bits_length, (bits_bytes w) at 1. lia.
Qed.

End FormattingFacts.

(** ** ENUMS: the enum and the name table of one canonical list *)

Section EnumFacts.
Import Tokens Enums.

Lemma fresh_parts (s : scope) (n : string) :
  fresh s n = true ->
  replacement s n = None /\ enumerator (around s) n = true.
Proof.
  unfold fresh. destruct (replacement s n); [discriminate|]. now split.
Qed.

Lemma fresh_all (s : scope) (L : list string) :
  Forall (fun n => fresh s n = true) L ->
  Forall (fun n => replacement s n = None) L
  /\ forallb (enumerator (around s)) L = true.
Proof.
  induction 1 as [|n L Hn _ [IH1 IH2]]; [now split|].
  apply fresh_parts in Hn as [Hr He]. split.
  - now constructor.
  - cbn. now rewrite He, IH2.
Qed.

Lemma enumerator_list_GENERATE_ENUM (s : scope) (L : list string) :
  Forall (fun n => replacement s n = None) L ->
  enumerator_list (FOR_EACH L (GENERATE_ENUM s)) = Some L.
Proof.
  unfold FOR_EACH. induction 1 as [|n L Hn _ IH]; [reflexivity|].
  cbn [flat_map]. unfold GENERATE_ENUM at 1. rewrite Hn.
  cbn [app enumerator_list]. now rewrite IH.
Qed.

Lemma String_array_GENERATE_STRING (L : list string) :
  String_array (FOR_EACH L GENERATE_STRING)
  = Some (map (fun n => {| entry_name := n;
                           entry_length := sizeof_literal n |}) L).
Proof.
  unfold FOR_EACH. induction L as [|n L IH]; [reflexivity|].
  cbn [flat_map GENERATE_STRING app String_array].
  rewrite IH. reflexivity.
Qed.

Lemma existsb_eqb_In (n : string) (names : list string) :
  existsb (String.eqb n) names = true <-> In n names.
Proof.
  rewrite existsb_exists. split.
  - intros (m & Hin & E). apply String.eqb_eq in E. now subst.
  - intros Hin. exists n. split; [assumption | apply String.eqb_refl].
Qed.

Lemma distinct_NoDup (names : list string) :
  distinct names = true <-> NoDup names.
Proof.
  induction names as [|n names IH]; cbn [distinct].
  - split; [constructor | reflexivity].
  - rewrite andb_true_iff, negb_true_iff, IH.
    rewrite <- not_true_iff_false, existsb_eqb_In.
    split.
    + intros [Hn Hd]. now constructor.
    + intros H. inversion H; subst. now split.
Qed.

Lemma enumerate_nth (names : list string) (next : Z) (i : nat) :
  nth_error (enumerate next names) i
  = option_map (fun n => (n, next + Z.of_nat i)) (nth_error names i).
Proof.
  revert next i. induction names as [|n names IH]; intros next i.
  - now destruct i.
  - destruct i as [|i]; cbn [enumerate nth_error option_map].
    + now rewrite Z.add_0_r.
    + rewrite IH. destruct (nth_error names i); cbn; [|reflexivity].
      do 2 f_equal. lia.
Qed.

Lemma enumerate_lookup (names : list string) (next : Z) (i : nat) (n : string) :
  NoDup names ->
  nth_error names i = Some n ->
  lookup n (enumerate next names) = Some (next + Z.of_nat i).
Proof.
  revert next i. induction names as [|m names IH]; intros next i Hnd Hi.
  - now destruct i.
  - inversion Hnd as [|? ? Hnotin Hnd']; subst.
    destruct i as [|i]; cbn [nth_error] in Hi; cbn [enumerate lookup].
    + injection Hi as ->. now rewrite String.eqb_refl, Z.add_0_r.
    + destruct (String.eqb_spec n m) as [->|_].
      * exfalso. apply Hnotin. eapply nth_error_In; eassumption.
      * rewrite (IH (next + 1) i) by assumption. f_equal. lia.
Qed.

Lemma MyThing_enumerate (s : scope) (L : list string) :
  L <> [] -> NoDup L -> Forall (fun n => fresh s n = true) L ->
  MyThing s L = Some (enumerate 0 L).
Proof.
  intros Hne Hnd Hfresh. unfold MyThing, typedef_enum.
  apply fresh_all in Hfresh as [Hr He].
  rewrite enumerator_list_GENERATE_ENUM by assumption.
  destruct L as [|n rest]; [contradiction|].
  apply distinct_NoDup in Hnd. now rewrite Hnd, He.
Qed.





End EnumFacts.

(** ** DEFAULT ARGUMENTS: counting and dispatch *)

Section DefaultsFacts.
Import Tokens Defaults.
Local Open Scope string_scope.
Local Open Scope list_scope.

(** Reading a run of tokens that closes what it opens puts the run in
    front of the argument that follows it. *)
Lemma arguments_from_run (a : Arg) (depth depth' : nat) (rest : list token) :
  closes depth a = Some depth' ->
  arguments_from depth (a ++ rest)
  = fold_right push (arguments_from depth' rest) a.
Proof.
  revert depth. induction a as [|t a IH]; intros depth H.
  - cbn in H. injection H as ->. reflexivity.
  - destruct t; cbn [closes] in H; cbn [app arguments_from fold_right];
      try (now rewrite (IH _ H)).
    + destruct depth as [|d]; [discriminate | now rewrite (IH _ H)].
    + destruct depth as [|d]; [discriminate | now rewrite (IH _ H)].
Qed.

Lemma push_run (a : Arg) (args : list Arg) :
  fold_right push ([] :: args) a = a :: args.
Proof. induction a as [|t a IH]; cbn; [reflexivity | now rewrite IH]. Qed.

Lemma arguments_one (a : Arg) (rest : list token) :
  one_argument a = true ->
  arguments_from O (a ++ Comma :: rest) = a :: arguments_from O rest.
Proof.
  unfold one_argument. intros H.
  destruct (closes O a) as [[|d]|] eqn:E; try discriminate.
  rewrite (arguments_from_run a O O _ E). cbn [arguments_from].
  apply push_run.
Qed.

(** Arguments that are each one argument are read back as they were. *)
Lemma arguments_separated (va : list Arg) (rest : list token) :
  va <> [] ->
  Forall (fun a => one_argument a = true) va ->
  arguments (separated va ++ Comma :: rest) = va ++ arguments rest.
Proof.
  unfold arguments. intros Hne Hall. induction Hall as [|a va Ha Hva IH].
  - contradiction.
  - destruct va as [|b va].
    + cbn [separated app]. now apply arguments_one.
    + change (separated (a :: b :: va))
        with (a ++ Comma :: separated (b :: va)).
      rewrite <- app_assoc. cbn [app].
      rewrite arguments_one by assumption.
      rewrite IH by discriminate. reflexivity.
Qed.

Lemma VA_ARGS_COUNT_plain (va : list Arg) :
  va <> [] ->
  Forall (fun a => one_argument a = true) va ->
  VA_ARGS_COUNT va = POP_10TH_ARG (va ++ sentinels).
Proof.
  intros Hne Hall. unfold VA_ARGS_COUNT.
  now rewrite arguments_separated.
Qed.

(** [VA_ARGS_COUNT] reads the ninth element of the arguments followed by
    the sentinels: [argN] is the ninth parameter of [POP_10TH_ARG]. *)
Lemma POP_10TH_ARG_ninth (args : list Arg) :
  (9 <= List.length args)%nat -> POP_10TH_ARG args = nth_error args 8.
Proof.
  intros H. unfold POP_10TH_ARG.
  do 9 (destruct args as [|? args]; [cbn in H; lia|]). reflexivity.
Qed.

(** A call without arguments passes one empty argument and is counted
    as 1; a count of 0 is never produced. *)
Example VA_ARGS_COUNT_no_argument : VA_ARGS_COUNT [[]] = Some [Number 1].
Proof. reflexivity. Qed.

(** C2 as stated, for every call with [k] arguments, fails on the call
    [VA_ARGS_COUNT(BYTE_TO_BINARY_CHARS_8(5))]: it supplies one argument,
    which is macro-expanded to eight expressions with commas between them
    before [POP_10TH_ARG] reads its arguments, and the count is 8. *)
Lemma C2_expanded_argument_counterexample :
  (1 <= List.length [Text.BYTE_TO_BINARY_CHARS_8 [Number 5]] <= 8)%nat
  /\ VA_ARGS_COUNT [Text.BYTE_TO_BINARY_CHARS_8 [Number 5]] = Some [Number 8]
  /\ VA_ARGS_COUNT [Text.BYTE_TO_BINARY_CHARS_8 [Number 5]]
     <> Some [Number (List.length [Text.BYTE_TO_BINARY_CHARS_8 [Number 5]])]
  /\ ~ (forall va : list Arg,
          (1 <= List.length va <= 8)%nat ->
          VA_ARGS_COUNT va = Some [Number (List.length va)]).
Proof.
  split; [cbn; lia|]. split; [reflexivity|]. split; [discriminate|].
  intros H.
  specialize (H [Text.BYTE_TO_BINARY_CHARS_8 [Number 5]]).
  assert (E : Some [Number 8] = Some [Number 1])
    by (apply H; cbn; lia).
  discriminate E.
Qed.

(** C2 (amended). For every dispatch family and every call with [k]
    arguments, [1 <= k <= 8], each of which is still one argument once
    macro-expanded (matching parentheses, no comma outside them),
    [VA_ARGS_COUNT] appends the sentinels 8,7,6,5,4,3,2,1,0 to the
    arguments and reads the slot [POP_10TH_ARG] returns (its parameter
    [argN], the ninth of the list), which holds [k]; that count is the
    postfix [WITH_DEFAULTS] hands to [SELECT_FUNCTION]. *)
Theorem C2_count_of_arguments (va : list Arg) :
  Forall (fun a => one_argument a = true) va ->
  (1 <= List.length va <= 8)%nat ->
  VA_ARGS_COUNT va = nth_error (va ++ sentinels) 8
  /\ VA_ARGS_COUNT va = Some [Number (List.length va)]
  /\ forall family : string,
       dispatcher family va
       = Some (SELECT_FUNCTION [Ident family] [Number (List.length va)]
                 ++ LParen :: separated va ++ [RParen]).
Proof.
  intros Hall Hk.
  assert (Hne : va <> []) by (destruct va; [cbn in Hk; lia | discriminate]).
  assert (E : VA_ARGS_COUNT va = Some [Number (List.length va)]).
  { rewrite VA_ARGS_COUNT_plain by assumption. clear Hall Hne.
    destruct va as [|a1 va]; [cbn in Hk; lia|].
    do 8 (destruct va as [|? va]; [reflexivity|]).
    cbn [List.length] in Hk. lia. }
  split.
  - rewrite VA_ARGS_COUNT_plain by assumption.
    apply POP_10TH_ARG_ninth. rewrite length_app. cbn. lia.
  - split; [exact E|].
    intros family. unfold dispatcher, WITH_DEFAULTS. now rewrite E.
Qed.

Lemma C2_count_of_arguments_witness :
  VA_ARGS_COUNT [[StringLit "Greetings"]; [StringLit "Sailor"]]
  = nth_error ([[StringLit "Greetings"]; [StringLit "Sailor"]] ++ sentinels) 8
  /\ VA_ARGS_COUNT [[StringLit "Greetings"]; [StringLit "Sailor"]]
     = Some [Number 2]
  /\ forall family : string,
       dispatcher family [[StringLit "Greetings"]; [StringLit "Sailor"]]
       = Some (SELECT_FUNCTION [Ident family] [Number 2]
                 ++ LParen
                 :: separated [[StringLit "Greetings"]; [StringLit "Sailor"]]
                 ++ [RParen]).
Proof.
  apply (C2_count_of_arguments
           [[StringLit "Greetings"]; [StringLit "Sailor"]]).
  - repeat constructor.
  - simpl. lia.
Defined.

(** C10 as stated, for every list of nine arguments, fails on
    [VA_ARGS_COUNT(BYTE_TO_BINARY_CHARS_8(5), a, b, c, d, e, f, g, h)]: the
    ninth argument supplied is [h], but the first one is macro-expanded to
    eight arguments, and the result is [a]. *)
Lemma C10_expanded_argument_counterexample :
  List.length
    [ Text.BYTE_TO_BINARY_CHARS_8 [Number 5]; [Ident "a"]; [Ident "b"];
      [Ident "c"]; [Ident "d"]; [Ident "e"]; [Ident "f"]; [Ident "g"];
      [Ident "h"] ] = 9%nat
  /\ nth_error
       [ Text.BYTE_TO_BINARY_CHARS_8 [Number 5]; [Ident "a"]; [Ident "b"];
         [Ident "c"]; [Ident "d"]; [Ident "e"]; [Ident "f"]; [Ident "g"];
         [Ident "h"] ] 8 = Some [Ident "h"]
  /\ VA_ARGS_COUNT
       [ Text.BYTE_TO_BINARY_CHARS_8 [Number 5]; [Ident "a"]; [Ident "b"];
         [Ident "c"]; [Ident "d"]; [Ident "e"]; [Ident "f"]; [Ident "g"];
         [Ident "h"] ] = Some [Ident "a"]
  /\ ~ (forall va : list Arg,
          (9 <= List.length va)%nat ->
          VA_ARGS_COUNT va = nth_error va 8).
Proof.
  split; [reflexivity|]. split; [reflexivity|]. split; [reflexivity|].
  intros H.
  specialize
    (H [ Text.BYTE_TO_BINARY_CHARS_8 [Number 5]; [Ident "a"]; [Ident "b"];
         [Ident "c"]; [Ident "d"]; [Ident "e"]; [Ident "f"]; [Ident "g"];
         [Ident "h"] ]).
  assert (E : Some [Ident "a"] = Some [Ident "h"])
    by (apply H; cbn; lia).
  discriminate E.
Qed.

(** C10 (amended). With nine or more arguments, each of which is still one
    argument once macro-expanded, [VA_ARGS_COUNT] neither fails nor
    counts: its result is the ninth argument of the call, whatever that
    argument is, and this is the postfix [WITH_DEFAULTS] selects with. *)
Theorem C10_ninth_argument_returned (va : list Arg) :
  Forall (fun a => one_argument a = true) va ->
  (9 <= List.length va)%nat ->
  exists ninth,
    nth_error va 8 = Some ninth
    /\ VA_ARGS_COUNT va = Some ninth
    /\ forall f : Arg,
         WITH_DEFAULTS f va
         = Some (SELECT_FUNCTION f ninth ++ LParen :: separated va ++ [RParen]).
Proof.
  intros Hall Hk.
  assert (Hne : va <> []) by (destruct va; [cbn in Hk; lia | discriminate]).
  assert (E : VA_ARGS_COUNT va = nth_error va 8).
  { rewrite VA_ARGS_COUNT_plain by assumption. clear Hall Hne.
    do 9 (destruct va as [|? va]; [cbn in Hk; lia|]). reflexivity. }
  destruct (nth_error va 8) as [ninth|] eqn:N.
  - exists ninth. split; [reflexivity|]. split; [exact E|].
    intros f. unfold WITH_DEFAULTS. now rewrite E.
  - apply nth_error_None in N. lia.
Qed.

Lemma C10_ninth_argument_returned_witness :
  exists ninth,
    nth_error [[Number 1]; [Number 2]; [Number 3]; [Number 4]; [Number 5];
               [Number 6]; [Number 7]; [Number 8]; [Ident "x"]] 8
    = Some ninth
    /\ VA_ARGS_COUNT [[Number 1]; [Number 2]; [Number 3]; [Number 4];
                      [Number 5]; [Number 6]; [Number 7]; [Number 8];
                      [Ident "x"]]
       = Some ninth
    /\ forall f : Arg,
         WITH_DEFAULTS f [[Number 1]; [Number 2]; [Number 3]; [Number 4];
                          [Number 5]; [Number 6]; [Number 7]; [Number 8];
                          [Ident "x"]]
         = Some (SELECT_FUNCTION f ninth
                   ++ LParen
                   :: separated [[Number 1]; [Number 2]; [Number 3];
                                 [Number 4]; [Number 5]; [Number 6];
                                 [Number 7]; [Number 8]; [Ident "x"]]
                   ++ [RParen]).
Proof.
  apply (C10_ninth_argument_returned
           [[Number 1]; [Number 2]; [Number 3]; [Number 4]; [Number 5];
            [Number 6]; [Number 7]; [Number 8]; [Ident "x"]]).
  - repeat constructor.
  - simpl. lia.
Defined.

End DefaultsFacts.

(** ** DEFAULT ARGUMENTS: what the dispatcher expands to *)

Section DispatchFacts.
Import Tokens Defaults.
Local Open Scope string_scope.
Local Open Scope list_scope.

Lemma CONCATENATE_is_not_a_macro :
  Header.is_macro "CONCATENATE" = false
  /\ Header.is_macro "INTERNAL_CONCATENATE" = true.
Proof. split; reflexivity. Qed.

(** Whatever the family and the arguments, what [WITH_DEFAULTS] expands
    to is a call of the identifier [CONCATENATE]. *)
Lemma WITH_DEFAULTS_calls_CONCATENATE (f : Arg) (va : list Arg)
    (expansion : list token) :
  WITH_DEFAULTS f va = Some expansion ->
  exists rest, expansion = Ident "CONCATENATE" :: LParen :: rest.
Proof.
  unfold WITH_DEFAULTS.
  destruct (VA_ARGS_COUNT va) as [postfix|]; [|discriminate].
  intros E. injection E as <-.
  unfold SELECT_FUNCTION. cbn [app]. eexists. reflexivity.
Qed.

Lemma call_of_WITH_DEFAULTS {A : Type} (declared : list (string * A))
    (f : Arg) (va : list Arg) :
  lookup "CONCATENATE" declared = None ->
  WITH_DEFAULTS f va <> None ->
  call declared (WITH_DEFAULTS f va) = Undeclared "CONCATENATE".
Proof.
  intros Hnone Hsome.
  destruct (WITH_DEFAULTS f va) as [expansion|] eqn:E; [|contradiction].
  destruct (WITH_DEFAULTS_calls_CONCATENATE f va expansion E) as (rest & ->).
  cbn [call]. now rewrite Hnone.
Qed.

(** C3. The family [greet] declares [greet1] ("one-arg") and [greet2]
    ("two-arg") only.  The dispatcher built on [WITH_DEFAULTS] expands a
    call with one argument to [CONCATENATE(greet, 1)("Sailor")]:
    [CONCATENATE] is not a macro of the header, the name [greet1] is never
    formed, and the call names an identifier that nothing declares.  The
    same happens with two and with three arguments. *)
Theorem C3_dispatch_expands_to_CONCATENATE :
  Header.is_macro "CONCATENATE" = false
  /\ dispatcher "greet" [[StringLit "Sailor"]]
     = Some [Ident "CONCATENATE"; LParen; Ident "greet"; Comma; Number 1;
             RParen; LParen; StringLit "Sailor"; RParen]
  /\ call greet_family (dispatcher "greet" [[StringLit "Sailor"]])
     = Undeclared "CONCATENATE"
  /\ call greet_family
       (dispatcher "greet" [[StringLit "Greetings"]; [StringLit "Sailor"]])
     = Undeclared "CONCATENATE"
  /\ call greet_family
       (dispatcher "greet"
          [[StringLit "Greetings"]; [StringLit "Sailor"]; [StringLit "!!!"]])
     = Undeclared "CONCATENATE".
Proof. repeat split. Qed.

(** With the concatenation macro the header does define in the place of
    [CONCATENATE], the three calls of the header's comment behave as the
    comment says. *)
Lemma dispatch_through_INTERNAL_CONCATENATE :
  call greet_family
    (WITH_DEFAULTS_internal [Ident "greet"] [[StringLit "Sailor"]])
  = Built "one-arg"
  /\ call greet_family
       (WITH_DEFAULTS_internal [Ident "greet"]
          [[StringLit "Greetings"]; [StringLit "Sailor"]])
     = Built "two-arg"
  /\ call greet_family
       (WITH_DEFAULTS_internal [Ident "greet"]
          [[StringLit "Greetings"]; [StringLit "Sailor"]; [StringLit "!!!"]])
     = Undeclared "greet3".
Proof. repeat split. Qed.

End DispatchFacts.

(** ** Decimal spellings *)

Section Spellings.
Import Tokens.
Local Open Scope string_scope.

Lemma decimal_inj (a b : nat) : decimal a = decimal b -> a = b.
Proof.
  unfold decimal. intros H.
  apply (f_equal NilEmpty.uint_of_string) in H.
  rewrite !NilEmpty.usu in H. injection H as H.
  apply (f_equal Nat.of_uint) in H.
  now rewrite !Unsigned.of_to in H.
Qed.

Lemma append_inj_l (p a b : string) : p ++ a = p ++ b -> a = b.
Proof.
  induction p as [|c p IH]; cbn; intros H; [assumption|].
  injection H as H. now apply IH.
Qed.

End Spellings.

(** ** BIT MANIPULATION: setting, clearing and flipping one bit *)

Section LvalueFacts.
Import Types Bits Integers Lvalues.

Lemma size_bits_pos (t : unsigned) : 0 < size_bits t <= 64.
Proof. destruct t; cbn; lia. Qed.

Lemma cast_mod (t : unsigned) (v : Z) : cast t v = v mod 2 ^ size_bits t.
Proof. now destruct t. Qed.

Lemma cast_bits (t : unsigned) (v i : Z) :
  Z.testbit (cast t v) i = (i <? size_bits t) && Z.testbit v i.
Proof.
  rewrite cast_mod. apply Z.testbit_mod_pow2.
  pose proof (size_bits_pos t). lia.
Qed.

Lemma cast_in_range (t : unsigned) (v : Z) : in_range t (cast t v).
Proof.
  unfold in_range. rewrite cast_mod. apply Z.mod_pos_bound.
  apply Z.pow_pos_nonneg; [lia|]. pose proof (size_bits_pos t). lia.
Qed.

Lemma in_range_cast (t : unsigned) (x : Z) : in_range t x -> cast t x = x.
Proof. intros H. rewrite cast_mod. now apply Z.mod_small. Qed.

Lemma in_range_bits_high (t : unsigned) (x i : Z) :
  in_range t x -> size_bits t <= i -> Z.testbit x i = false.
Proof.
  intros Hx Hi. rewrite <- (in_range_cast t x Hx), cast_bits.
  destruct (Z.ltb_spec i (size_bits t)); [lia | reflexivity].
Qed.

Lemma u64_bits (v i : Z) :
  Z.testbit (u64 v) i = (i <? 64) && Z.testbit v i.
Proof. unfold u64. now apply Z.testbit_mod_pow2. Qed.

Lemma u32_bits (v i : Z) :
  Z.testbit (u32 v) i = (i <? 32) && Z.testbit v i.
Proof. unfold u32. now apply Z.testbit_mod_pow2. Qed.

(** The bits of an object after each of the three single-bit macros. *)

Lemma BIT_SET_bits (t : unsigned) (x bit i : Z) :
  in_range t x -> 0 <= bit < 64 -> 0 <= i ->
  Z.testbit (BIT_SET t x bit) i
  = (i <? size_bits t) && (Z.testbit x i || (bit =? i)).
Proof.
  intros Hx Hb Hi. unfold BIT_SET, c_bitwise.
  rewrite cast_bits. cbn [fst snd rvalue one_ULL_shifted].
  replace (usual (promoted t) ULongLong) with ULongLong by now destruct t.
  cbn [convert]. rewrite Z.lor_spec, !u64_bits.
  rewrite Z.shiftl_1_l, Z.pow2_bits_eqb by lia.
  pose proof (size_bits_pos t).
  destruct (Z.ltb_spec i (size_bits t)); [|reflexivity].
  destruct (Z.ltb_spec i 64); [|lia].
  cbn. reflexivity.
Qed.

Lemma BIT_CLEAR_bits (t : unsigned) (x bit i : Z) :
  in_range t x -> 0 <= bit < 64 -> 0 <= i ->
  Z.testbit (BIT_CLEAR t x bit) i
  = (i <? size_bits t) && (Z.testbit x i && negb (bit =? i)).
Proof.
  intros Hx Hb Hi. unfold BIT_CLEAR, c_bitwise, c_compl.
  rewrite cast_bits. cbn [fst snd rvalue one_ULL_shifted].
  replace (usual (promoted t) ULongLong) with ULongLong by now destruct t.
  cbn [convert]. rewrite Z.land_spec, !u64_bits, Z.lnot_spec by assumption.
  rewrite ?u64_bits, Z.shiftl_1_l, Z.pow2_bits_eqb by lia.
  pose proof (size_bits_pos t).
  destruct (Z.ltb_spec i (size_bits t)); [|reflexivity].
  destruct (Z.ltb_spec i 64); [|lia].
  cbn. reflexivity.
Qed.

Lemma BIT_FLIP_bits (t : unsigned) (x bit i : Z) :
  in_range t x -> 0 <= bit < 64 -> 0 <= i ->
  Z.testbit (BIT_FLIP t x bit) i
  = (i <? size_bits t) && xorb (Z.testbit x i) (bit =? i).
Proof.
  intros Hx Hb Hi. unfold BIT_FLIP, c_bitwise.
  rewrite cast_bits. cbn [fst snd rvalue one_ULL_shifted].
  replace (usual (promoted t) ULongLong) with ULongLong by now destruct t.
  cbn [convert]. rewrite Z.lxor_spec, !u64_bits.
  rewrite Z.shiftl_1_l, Z.pow2_bits_eqb by lia.
  pose proof (size_bits_pos t).
  destruct (Z.ltb_spec i (size_bits t)); [|reflexivity].
  destruct (Z.ltb_spec i 64); [|lia].
  cbn. reflexivity.
Qed.

(** X1. After [BIT_SET(x, bit)] on an unsigned object, with [bit] inside
    the object's width, [BIT_CHECK] gives 1 at [bit] and what it gave
    before at every other position. *)
Theorem BIT_SET_then_BIT_CHECK (t : unsigned) (x bit j : Z) :
  in_range t x -> 0 <= bit < size_bits t -> 0 <= j < 64 ->
  in_range t (BIT_SET t x bit)
  /\ BIT_CHECK (BIT_SET t x bit) j
     = if j =? bit then 1 else BIT_CHECK x j.
Proof.
  intros Hx Hb Hj. split; [apply cast_in_range|].
  pose proof (size_bits_pos t).
  rewrite !BIT_CHECK_spec, BIT_SET_bits by (assumption || lia).
  destruct (Z.eqb_spec j bit) as [->|Hne].
  - rewrite Z.eqb_refl, orb_true_r.
    destruct (Z.ltb_spec bit (size_bits t)); [reflexivity | lia].
  - destruct (Z.eqb_spec bit j); [lia|]. rewrite orb_false_r.
    destruct (Z.ltb_spec j (size_bits t)); [reflexivity|].
    cbn. now rewrite (in_range_bits_high t x j).
Qed.

Lemma BIT_SET_then_BIT_CHECK_witness :
  in_range U8 (BIT_SET U8 176 3)
  /\ BIT_CHECK (BIT_SET U8 176 3) 3 = if 3 =? 3 then 1 else BIT_CHECK 176 3.
Proof.
  apply (BIT_SET_then_BIT_CHECK U8 176 3 3);
    unfold in_range; simpl; lia.
Defined.

(** X2. After [BIT_CLEAR(x, bit)] on an unsigned object, [BIT_CHECK] gives
    0 at [bit] and what it gave before at every other position. *)
Theorem BIT_CLEAR_then_BIT_CHECK (t : unsigned) (x bit j : Z) :
  in_range t x -> 0 <= bit < 64 -> 0 <= j < 64 ->
  in_range t (BIT_CLEAR t x bit)
  /\ BIT_CHECK (BIT_CLEAR t x bit) j
     = if j =? bit then 0 else BIT_CHECK x j.
Proof.
  intros Hx Hb Hj. split; [apply cast_in_range|].
  rewrite !BIT_CHECK_spec, BIT_CLEAR_bits by (assumption || lia).
  destruct (Z.eqb_spec j bit) as [->|Hne].
  - now rewrite Z.eqb_refl, andb_false_r, andb_false_r.
  - destruct (Z.eqb_spec bit j); [lia|]. cbn [negb]. rewrite andb_true_r.
    destruct (Z.ltb_spec j (size_bits t)); [reflexivity|].
    cbn. now rewrite (in_range_bits_high t x j).
Qed.

Lemma BIT_CLEAR_then_BIT_CHECK_witness :
  in_range U16 (BIT_CLEAR U16 176 4)
  /\ BIT_CHECK (BIT_CLEAR U16 176 4) 4
     = if 4 =? 4 then 0 else BIT_CHECK 176 4.
Proof.
  apply (BIT_CLEAR_then_BIT_CHECK U16 176 4 4);
    unfold in_range; simpl; lia.
Defined.

(** X3. [BIT_FLIP(x, bit)] with [bit] inside the width inverts what
    [BIT_CHECK] gives at [bit], keeps every other position, and applied
    twice gives the object its first value back. *)
Theorem BIT_FLIP_toggles (t : unsigned) (x bit j : Z) :
  in_range t x -> 0 <= bit < size_bits t -> 0 <= j < 64 ->
  BIT_CHECK (BIT_FLIP t x bit) j
  = (if j =? bit then 1 - BIT_CHECK x j else BIT_CHECK x j)
  /\ BIT_FLIP t (BIT_FLIP t x bit) bit = x.
Proof.
  intros Hx Hb Hj. pose proof (size_bits_pos t). split.
  - rewrite !BIT_CHECK_spec, BIT_FLIP_bits by (assumption || lia).
    destruct (Z.eqb_spec j bit) as [->|Hne].
    + rewrite Z.eqb_refl.
      destruct (Z.ltb_spec bit (size_bits t)); [|lia].
      now destruct (Z.testbit x bit).
    + destruct (Z.eqb_spec bit j); [lia|]. rewrite xorb_false_r.
      destruct (Z.ltb_spec j (size_bits t)); [reflexivity|].
      cbn. now rewrite (in_range_bits_high t x j).
  - apply Z.bits_inj'. intros i Hi.
    rewrite BIT_FLIP_bits by (apply cast_in_range || lia).
    rewrite BIT_FLIP_bits by (assumption || lia).
    destruct (Z.ltb_spec i (size_bits t)).
    + cbn. now rewrite xorb_assoc, xorb_nilpotent, xorb_false_r.
    + cbn. now rewrite (in_range_bits_high t x i).
Qed.

Lemma BIT_FLIP_toggles_witness :
  BIT_CHECK (BIT_FLIP U32 176 0) 0
  = (if 0 =? 0 then 1 - BIT_CHECK 176 0 else BIT_CHECK 176 0)
  /\ BIT_FLIP U32 (BIT_FLIP U32 176 0) 0 = 176.
Proof.
  apply (BIT_FLIP_toggles U32 176 0 0); unfold in_range; simpl; lia.
Defined.

(** X4. A bit index past the width of the object (and below 64) is
    accepted without any effect: [BIT_SET], [BIT_CLEAR] and [BIT_FLIP] leave
    the object as it was, and [BIT_CHECK] gives 0. *)
Theorem bit_past_the_width (t : unsigned) (x bit : Z) :
  in_range t x -> size_bits t <= bit < 64 ->
  BIT_SET t x bit = x
  /\ BIT_CLEAR t x bit = x
  /\ BIT_FLIP t x bit = x
  /\ BIT_CHECK x bit = 0.
Proof.
  intros Hx Hb. pose proof (size_bits_pos t).
  repeat split.
  - apply Z.bits_inj'. intros i Hi. rewrite BIT_SET_bits by (assumption || lia).
    destruct (Z.ltb_spec i (size_bits t)).
    + destruct (Z.eqb_spec bit i); [lia|]. cbn. apply orb_false_r.
    + cbn. now rewrite (in_range_bits_high t x i).
  - apply Z.bits_inj'. intros i Hi. rewrite BIT_CLEAR_bits by (assumption || lia).
    destruct (Z.ltb_spec i (size_bits t)).
    + destruct (Z.eqb_spec bit i); [lia|]. cbn. apply andb_true_r.
    + cbn. now rewrite (in_range_bits_high t x i).
  - apply Z.bits_inj'. intros i Hi. rewrite BIT_FLIP_bits by (assumption || lia).
    destruct (Z.ltb_spec i (size_bits t)).
    + destruct (Z.eqb_spec bit i); [lia|]. cbn. apply xorb_false_r.
    + cbn. now rewrite (in_range_bits_high t x i).
  - rewrite BIT_CHECK_spec by lia.
    now rewrite (in_range_bits_high t x bit).
Qed.

Lemma bit_past_the_width_witness :
  BIT_SET U8 176 8 = 176
  /\ BIT_CLEAR U8 176 8 = 176
  /\ BIT_FLIP U8 176 8 = 176
  /\ BIT_CHECK 176 8 = 0.
Proof.
  apply (bit_past_the_width U8 176 8); unfold in_range; simpl; lia.
Defined.

End LvalueFacts.

(** ** BIT MANIPULATION: masks *)

Section MaskFacts.
Import Types Bits Integers Lvalues.

Lemma convert_bits (c : ctype) (v i : Z) :
  Z.testbit (convert c v) i
  = match c with
    | Int => Z.testbit v i
    | UInt => (i <? 32) && Z.testbit v i
    | ULongLong => (i <? 64) && Z.testbit v i
    end.
Proof. destruct c; cbn [convert]; [reflexivity | apply u32_bits | apply u64_bits]. Qed.

(** [x] has every bit of [mask] exactly when nothing of [mask] is left
    under the complement of [x]. *)
Lemma land_lnot_zero (x mask : Z) :
  Z.land (Z.lnot x) mask = 0 <-> Z.land x mask = mask.
Proof.
  split; intros H; apply Z.bits_inj'; intros i Hi.
  - apply (f_equal (fun z => Z.testbit z i)) in H.
    rewrite Z.land_spec, Z.lnot_spec, Z.bits_0 in H by assumption.
    rewrite Z.land_spec.
    destruct (Z.testbit x i), (Z.testbit mask i); cbn in *; congruence.
  - apply (f_equal (fun z => Z.testbit z i)) in H.
    rewrite Z.land_spec in H.
    rewrite Z.land_spec, Z.lnot_spec, Z.bits_0 by assumption.
    destruct (Z.testbit x i), (Z.testbit mask i); cbn in *; congruence.
Qed.

Lemma c_not_zero_test (e a b : Z) :
  (e = 0 <-> a = b) -> c_not e = if a =? b then 1 else 0.
Proof.
  intros H. unfold c_not.
  destruct (Z.eqb_spec e 0) as [E|E], (Z.eqb_spec a b) as [F|F];
    try reflexivity; exfalso; tauto.
Qed.

(** Bits of the operands of the mask macros, whatever the two types. *)
Ltac mask_bits :=
  rewrite ?cast_bits, ?convert_bits, ?Z.land_spec, ?Z.lor_spec,
    ?Z.lxor_spec, ?Z.lnot_spec, ?convert_bits, ?Z.lnot_spec by assumption.

Ltac high_bit x :=
  match goal with
  | Hx : in_range ?t x, Hi : ?n <= ?i |- _ =>
      rewrite (in_range_bits_high t x i Hx) by (cbn [size_bits]; lia)
  end.

Lemma BITMASK_CLEAR_bits (t tm : unsigned) (x mask i : Z) :
  in_range t x -> in_range tm mask -> 0 <= i ->
  Z.testbit (BITMASK_CLEAR t tm x mask) i
  = match t, tm with
    | U64, U32 => (i <? 32) && (Z.testbit x i && negb (Z.testbit mask i))
    | _, _ => Z.testbit x i && negb (Z.testbit mask i)
    end.
Proof.
  intros Hx Hm Hi. unfold BITMASK_CLEAR, c_bitwise, c_compl, rvalue.
  cbn [fst snd].
  destruct t, tm; cbn [promoted usual]; mask_bits; cbn [size_bits];
    repeat match goal with
      | |- context [?a <? ?b] => destruct (Z.ltb_spec a b)
      end; cbn [andb]; try reflexivity; try lia;
    try (high_bit x; reflexivity).
Qed.

(** X5. [BITMASK_CLEAR(x, mask)] leaves no bit of [mask] in the object,
    whatever the unsigned types of the two: [BITMASK_CHECK_ANY] then gives
    0. *)
Theorem BITMASK_CLEAR_then_CHECK_ANY (t tm : unsigned) (x mask : Z) :
  in_range t x -> in_range tm mask ->
  BITMASK_CHECK_ANY t tm (BITMASK_CLEAR t tm x mask) mask = 0.
Proof.
  intros Hx Hm. unfold BITMASK_CHECK_ANY, c_bitwise, rvalue. cbn [fst snd].
  apply Z.bits_inj'. intros i Hi.
  rewrite Z.bits_0, Z.land_spec, !convert_bits.
  rewrite (BITMASK_CLEAR_bits t tm x mask i Hx Hm Hi).
  destruct t, tm; cbn [promoted usual];
    destruct (Z.testbit x i), (Z.testbit mask i);
    cbn; rewrite ?andb_false_r; reflexivity.
Qed.

Lemma BITMASK_CLEAR_then_CHECK_ANY_witness :
  BITMASK_CHECK_ANY U16 U8 (BITMASK_CLEAR U16 U8 1000 15) 15 = 0.
Proof.
  apply (BITMASK_CLEAR_then_CHECK_ANY U16 U8 1000 15);
    unfold in_range; simpl; lia.
Defined.

(** X6. Except for a [u64] object with a [u32] mask, [BITMASK_CLEAR]
    removes the bits of [mask] from the object and keeps all the others:
    the object becomes [x & ~mask]. *)
Theorem BITMASK_CLEAR_keeps_the_rest (t tm : unsigned) (x mask : Z) :
  in_range t x -> in_range tm mask ->
  (t, tm) <> (U64, U32) ->
  BITMASK_CLEAR t tm x mask = Z.land x (Z.lnot mask).
Proof.
  intros Hx Hm Hne. apply Z.bits_inj'. intros i Hi.
  rewrite (BITMASK_CLEAR_bits t tm x mask i Hx Hm Hi).
  rewrite Z.land_spec, Z.lnot_spec by assumption.
  destruct t, tm; try reflexivity. now contradiction Hne.
Qed.

Lemma BITMASK_CLEAR_keeps_the_rest_witness :
  BITMASK_CLEAR U64 U8 (2 ^ 40 + 255) 15 = Z.land (2 ^ 40 + 255) (Z.lnot 15).
Proof.
  apply (BITMASK_CLEAR_keeps_the_rest U64 U8 (2 ^ 40 + 255) 15).
  - unfold in_range; simpl; lia.
  - unfold in_range; simpl; lia.
  - discriminate.
Defined.

(** X7. On a [u64] object with a mask of type [u32], [~(mask)] is computed
    in 32 bits and widened with zeros: [BITMASK_CLEAR] then clears bits 32
    to 63 of the object as well, whatever the mask, the empty mask
    included. *)
Theorem BITMASK_CLEAR_u64_by_u32 (x mask : Z) :
  in_range U64 x -> in_range U32 mask ->
  BITMASK_CLEAR U64 U32 x mask = Z.land x (Z.lnot mask) mod 2 ^ 32
  /\ 0 <= BITMASK_CLEAR U64 U32 x mask < 2 ^ 32
  /\ BITMASK_CLEAR U64 U32 x 0 = x mod 2 ^ 32.
Proof.
  intros Hx Hm.
  assert (E : forall m, in_range U32 m ->
                BITMASK_CLEAR U64 U32 x m = Z.land x (Z.lnot m) mod 2 ^ 32).
  { intros m Hm'. apply Z.bits_inj'. intros i Hi.
    rewrite (BITMASK_CLEAR_bits U64 U32 x m i Hx Hm' Hi).
    now rewrite Z.testbit_mod_pow2, Z.land_spec, Z.lnot_spec by lia. }
  split; [now apply E|]. split.
  - rewrite (E mask Hm). apply Z.mod_pos_bound. lia.
  - rewrite E by (unfold in_range; cbn; lia).
    change (Z.lnot 0) with (-1). now rewrite Z.land_m1_r.
Qed.

Lemma BITMASK_CLEAR_u64_by_u32_witness :
  BITMASK_CLEAR U64 U32 (2 ^ 40 + 255) 15
  = Z.land (2 ^ 40 + 255) (Z.lnot 15) mod 2 ^ 32
  /\ 0 <= BITMASK_CLEAR U64 U32 (2 ^ 40 + 255) 15 < 2 ^ 32
  /\ BITMASK_CLEAR U64 U32 (2 ^ 40 + 255) 0 = (2 ^ 40 + 255) mod 2 ^ 32.
Proof.
  apply (BITMASK_CLEAR_u64_by_u32 (2 ^ 40 + 255) 15);
    unfold in_range; simpl; lia.
Defined.

Lemma BITMASK_CHECK_ALL_bits (t tm : unsigned) (x mask i : Z) :
  in_range t x -> in_range tm mask -> 0 <= i ->
  Z.testbit
    (snd (c_bitwise Z.land (c_compl (rvalue t x)) (rvalue tm mask))) i
  = match t, tm with
    | U32, U64 => (i <? 32) && (negb (Z.testbit x i) && Z.testbit mask i)
    | _, _ => negb (Z.testbit x i) && Z.testbit mask i
    end.
Proof.
  intros Hx Hm Hi. unfold c_bitwise, c_compl, rvalue. cbn [fst snd].
  destruct t, tm; cbn [promoted usual]; mask_bits; cbn [size_bits];
    repeat match goal with
      | |- context [?a <? ?b] => destruct (Z.ltb_spec a b)
      end; cbn [andb]; try reflexivity; try lia;
    try (high_bit mask; now rewrite ?andb_false_r).
Qed.

Lemma CHECK_ALL_subset (t tm : unsigned) (x m : Z) :
  in_range t x -> in_range tm m ->
  (t, tm) <> (U32, U64) ->
  BITMASK_CHECK_ALL t tm x m = if Z.land x m =? m then 1 else 0.
Proof.
  intros Hx Hm Hne. unfold BITMASK_CHECK_ALL.
  apply c_not_zero_test. rewrite <- land_lnot_zero.
  replace (snd (c_bitwise Z.land (c_compl (rvalue t x)) (rvalue tm m)))
    with (Z.land (Z.lnot x) m); [reflexivity|].
  apply Z.bits_inj'. intros i Hi.
  rewrite (BITMASK_CHECK_ALL_bits t tm x m i Hx Hm Hi).
  rewrite Z.land_spec, Z.lnot_spec by assumption.
  destruct t, tm; try reflexivity. now contradiction Hne.
Qed.

(** X8. Except for a [u32] object with a [u64] mask,
    [BITMASK_CHECK_ALL(x, mask)] is 1 exactly when every bit of [mask] is
    set in [x], and 0 otherwise; the empty mask always gives 1. *)
Theorem BITMASK_CHECK_ALL_iff (t tm : unsigned) (x mask : Z) :
  in_range t x -> in_range tm mask ->
  (t, tm) <> (U32, U64) ->
  BITMASK_CHECK_ALL t tm x mask = (if Z.land x mask =? mask then 1 else 0)
  /\ BITMASK_CHECK_ALL t tm x 0 = 1.
Proof.
  intros Hx Hm Hne.
  split; [now apply CHECK_ALL_subset|].
  rewrite CHECK_ALL_subset; try assumption.
  - now rewrite Z.land_0_r.
  - unfold in_range. pose proof (size_bits_pos tm).
    split; [lia | apply Z.pow_pos_nonneg; lia].
Qed.

Lemma BITMASK_CHECK_ALL_iff_witness :
  BITMASK_CHECK_ALL U8 U8 176 48 = (if Z.land 176 48 =? 48 then 1 else 0)
  /\ BITMASK_CHECK_ALL U8 U8 176 0 = 1.
Proof.
  apply (BITMASK_CHECK_ALL_iff U8 U8 176 48).
  - unfold in_range; simpl; lia.
  - unfold in_range; simpl; lia.
  - discriminate.
Defined.

(** X9. On a [u32] object with a mask of type [u64], [~(x)] is computed in
    32 bits and widened with zeros, so bits 32 to 63 of the mask are not
    checked: the result is 1 exactly when the low 32 bits of [mask] are
    set in [x]. *)
Theorem BITMASK_CHECK_ALL_u32_by_u64 (x mask : Z) :
  in_range U32 x -> in_range U64 mask ->
  BITMASK_CHECK_ALL U32 U64 x mask
  = if Z.land x (mask mod 2 ^ 32) =? mask mod 2 ^ 32 then 1 else 0.
Proof.
  intros Hx Hm. unfold BITMASK_CHECK_ALL.
  apply c_not_zero_test. rewrite <- land_lnot_zero.
  replace (snd (c_bitwise Z.land (c_compl (rvalue U32 x)) (rvalue U64 mask)))
    with (Z.land (Z.lnot x) (mask mod 2 ^ 32)); [reflexivity|].
  apply Z.bits_inj'. intros i Hi.
  rewrite (BITMASK_CHECK_ALL_bits U32 U64 x mask i Hx Hm Hi).
  rewrite Z.land_spec, Z.lnot_spec, Z.testbit_mod_pow2 by lia.
  destruct (i <? 32), (Z.testbit x i), (Z.testbit mask i); reflexivity.
Qed.

Lemma BITMASK_CHECK_ALL_u32_by_u64_witness :
  BITMASK_CHECK_ALL U32 U64 1 (2 ^ 32 + 1)
  = if Z.land 1 ((2 ^ 32 + 1) mod 2 ^ 32) =? (2 ^ 32 + 1) mod 2 ^ 32
    then 1 else 0.
Proof.
  apply (BITMASK_CHECK_ALL_u32_by_u64 1 (2 ^ 32 + 1));
    unfold in_range; simpl; lia.
Defined.

Lemma BITMASK_SET_bits (t tm : unsigned) (x mask i : Z) :
  in_range t x -> in_range tm mask -> 0 <= i ->
  Z.testbit (BITMASK_SET t tm x mask) i
  = (i <? size_bits t) && (Z.testbit x i || Z.testbit mask i).
Proof.
  intros Hx Hm Hi. unfold BITMASK_SET, c_bitwise, rvalue. cbn [fst snd].
  destruct t, tm; cbn [promoted usual]; mask_bits; cbn [size_bits];
    repeat match goal with
      | |- context [?a <? ?b] => destruct (Z.ltb_spec a b)
      end; cbn [andb]; try reflexivity; try lia.
Qed.

Lemma BITMASK_FLIP_bits (t tm : unsigned) (x mask i : Z) :
  in_range t x -> in_range tm mask -> 0 <= i ->
  Z.testbit (BITMASK_FLIP t tm x mask) i
  = (i <? size_bits t) && xorb (Z.testbit x i) (Z.testbit mask i).
Proof.
  intros Hx Hm Hi. unfold BITMASK_FLIP, c_bitwise, rvalue. cbn [fst snd].
  destruct t, tm; cbn [promoted usual]; mask_bits; cbn [size_bits];
    repeat match goal with
      | |- context [?a <? ?b] => destruct (Z.ltb_spec a b)
      end; cbn [andb]; try reflexivity; try lia.
Qed.

(** X10. [BITMASK_SET(x, mask)] sets in the object the bits of [mask] that
    fit its width and keeps the others; [BITMASK_CHECK_ALL] with those
    bits then gives 1. *)
Theorem BITMASK_SET_then_CHECK_ALL (t tm : unsigned) (x mask : Z) :
  in_range t x -> in_range tm mask ->
  BITMASK_SET t tm x mask = Z.lor x (mask mod 2 ^ size_bits t)
  /\ BITMASK_CHECK_ALL t t (BITMASK_SET t tm x mask)
       (mask mod 2 ^ size_bits t) = 1.
Proof.
  intros Hx Hm. pose proof (size_bits_pos t) as Hs.
  assert (E : BITMASK_SET t tm x mask = Z.lor x (mask mod 2 ^ size_bits t)).
  { apply Z.bits_inj'. intros i Hi.
    rewrite (BITMASK_SET_bits t tm x mask i Hx Hm Hi).
    rewrite Z.lor_spec, Z.testbit_mod_pow2 by lia.
    destruct (Z.ltb_spec i (size_bits t)); [reflexivity|].
    cbn. now rewrite (in_range_bits_high t x i). }
  split; [exact E|].
  assert (Hm' : in_range t (mask mod 2 ^ size_bits t)).
  { rewrite <- cast_mod. apply cast_in_range. }
  rewrite CHECK_ALL_subset;
    [| apply cast_in_range | assumption | now destruct t].
  rewrite E.
  replace (Z.land (Z.lor x (mask mod 2 ^ size_bits t))
             (mask mod 2 ^ size_bits t))
    with (mask mod 2 ^ size_bits t); [now rewrite Z.eqb_refl|].
  apply Z.bits_inj'. intros i Hi.
  rewrite Z.land_spec, Z.lor_spec.
  destruct (Z.testbit x i), (Z.testbit (mask mod 2 ^ size_bits t) i);
    reflexivity.
Qed.

Lemma BITMASK_SET_then_CHECK_ALL_witness :
  BITMASK_SET U8 U16 176 (256 + 3)
  = Z.lor 176 ((256 + 3) mod 2 ^ size_bits U8)
  /\ BITMASK_CHECK_ALL U8 U8 (BITMASK_SET U8 U16 176 (256 + 3))
       ((256 + 3) mod 2 ^ size_bits U8) = 1.
Proof.
  apply (BITMASK_SET_then_CHECK_ALL U8 U16 176 (256 + 3));
    unfold in_range; simpl; lia.
Defined.

(** X11. [BITMASK_FLIP(x, mask)] applied twice with the same mask gives the
    object its first value back, whatever the unsigned types of the
    two. *)
Theorem BITMASK_FLIP_twice (t tm : unsigned) (x mask : Z) :
  in_range t x -> in_range tm mask ->
  BITMASK_FLIP t tm (BITMASK_FLIP t tm x mask) mask = x.
Proof.
  intros Hx Hm. apply Z.bits_inj'. intros i Hi.
  rewrite BITMASK_FLIP_bits by (apply cast_in_range || assumption).
  rewrite (BITMASK_FLIP_bits t tm x mask i Hx Hm Hi).
  destruct (Z.ltb_spec i (size_bits t)).
  - cbn. now rewrite xorb_assoc, xorb_nilpotent, xorb_false_r.
  - cbn. now rewrite (in_range_bits_high t x i).
Qed.

Lemma BITMASK_FLIP_twice_witness :
  BITMASK_FLIP U16 U64 (BITMASK_FLIP U16 U64 1000 (2 ^ 40 + 5)) (2 ^ 40 + 5)
  = 1000.
Proof.
  apply (BITMASK_FLIP_twice U16 U64 1000 (2 ^ 40 + 5));
    unfold in_range; simpl; lia.
Defined.

(** X12. [BITMASK_CHECK_ANY] gives [x & mask] itself, not 0 or 1.  When
    the bits shared by [x] and [mask] all lie at positions 8 and above, the
    result is not 0 and still becomes 0 once stored in the header's [bool]
    (an [i8]); the results of [BIT_CHECK] and [BITMASK_CHECK_ALL] go
    through that conversion unchanged. *)
Theorem BITMASK_CHECK_ANY_as_bool (t : unsigned) (x mask bit : Z) :
  in_range t x -> in_range t mask ->
  Z.land x mask <> 0 -> Z.land x mask mod 2 ^ 8 = 0 -> 0 <= bit < 64 ->
  BITMASK_CHECK_ANY t t x mask = Z.land x mask
  /\ to_bool (BITMASK_CHECK_ANY t t x mask) = 0
  /\ to_bool (BIT_CHECK x bit) = BIT_CHECK x bit
  /\ to_bool (BITMASK_CHECK_ALL t t x mask) = BITMASK_CHECK_ALL t t x mask.
Proof.
  intros Hx Hm Hne Hlow Hb.
  assert (E : BITMASK_CHECK_ANY t t x mask = Z.land x mask).
  { unfold BITMASK_CHECK_ANY, c_bitwise, rvalue. cbn [fst snd].
    apply Z.bits_inj'. intros i Hi. rewrite !Z.land_spec, !convert_bits.
    destruct t; cbn [promoted usual]; try reflexivity;
      repeat match goal with
        | |- context [?a <? ?b] => destruct (Z.ltb_spec a b)
        end; cbn [andb]; try reflexivity;
      high_bit x; reflexivity. }
  split; [exact E|]. split.
  - rewrite E. unfold to_bool, i8.
    rewrite <- Z.add_mod_idemp_l, Hlow by lia. reflexivity.
  - split.
    + rewrite BIT_CHECK_spec by assumption.
      now destruct (Z.testbit x bit).
    + unfold BITMASK_CHECK_ALL, c_not.
      now destruct (_ =? 0).
Qed.

Lemma BITMASK_CHECK_ANY_as_bool_witness :
  BITMASK_CHECK_ANY U16 U16 768 256 = Z.land 768 256
  /\ to_bool (BITMASK_CHECK_ANY U16 U16 768 256) = 0
  /\ to_bool (BIT_CHECK 768 8) = BIT_CHECK 768 8
  /\ to_bool (BITMASK_CHECK_ALL U16 U16 768 256)
     = BITMASK_CHECK_ALL U16 U16 768 256.
Proof.
  apply (BITMASK_CHECK_ANY_as_bool U16 768 256 8).
  - unfold in_range; simpl; lia.
  - unfold in_range; simpl; lia.
  - vm_compute. discriminate.
  - reflexivity.
  - lia.
Defined.

End MaskFacts.

(** ** MACRO UTILITIES: the names [UNIQUE_NAME] forms *)

Section UniqueFacts.
Import Tokens Defaults Unique.
Local Open Scope string_scope.

Lemma occurs_append (c : ascii) (a b : string) :
  occurs c (a ++ b) = occurs c a || occurs c b.
Proof.
  induction a as [|d a IH]; cbn; [reflexivity|].
  now rewrite IH, orb_assoc.
Qed.

Lemma decimal_no_underscore (n : nat) : occurs "_" (decimal n) = false.
Proof.
  unfold decimal. generalize (Nat.to_uint n).
  induction u as [|u IH|u IH|u IH|u IH|u IH|u IH|u IH|u IH|u IH|u IH];
    cbn; auto.
Qed.

(** A name, an underscore and a run of digits determine the name and the
    digits. *)
Lemma underscore_split (s1 s2 d1 d2 : string) :
  occurs "_" d1 = false -> occurs "_" d2 = false ->
  s1 ++ "_" ++ d1 = s2 ++ "_" ++ d2 -> s1 = s2 /\ d1 = d2.
Proof.
  intros H1 H2. revert s2.
  induction s1 as [|c s1 IH]; intros [|c' s2] E; cbn in E.
  - injection E as E. now split.
  - injection E as Ec E. subst d1.
    rewrite occurs_append in H1. cbn in H1.
    rewrite orb_true_r in H1. discriminate.
  - injection E as Ec E. subst d2.
    rewrite occurs_append in H2. cbn in H2.
    rewrite orb_true_r in H2. discriminate.
  - injection E as Ec E. subst c'.
    destruct (IH s2 E) as [-> ->]. now split.
Qed.

Lemma append_assoc (a b c : string) : (a ++ b) ++ c = a ++ b ++ c.
Proof. induction a as [|x a IH]; cbn; [reflexivity | now rewrite IH]. Qed.

Lemma UNIQUE_NAME_LINE_spelling (name : string) (line : nat) :
  UNIQUE_NAME_LINE name line = Some [Ident (name ++ "_" ++ decimal line)].
Proof.
  unfold UNIQUE_NAME_LINE, INTERNAL_CONCATENATE, INTERNAL_CONCAT_HELP.
  cbn. now rewrite append_assoc.
Qed.

Lemma unique_name_inj (n1 n2 : string) (k1 k2 : nat) :
  n1 ++ "_" ++ decimal k1 = n2 ++ "_" ++ decimal k2 -> n1 = n2 /\ k1 = k2.
Proof.
  intros E.
  apply underscore_split in E; try apply decimal_no_underscore.
  destruct E as [-> E]. split; [reflexivity | now apply decimal_inj].
Qed.

Lemma UNIQUE_NAME_LINE_inj (n1 n2 : string) (l1 l2 : nat) :
  UNIQUE_NAME_LINE n1 l1 = UNIQUE_NAME_LINE n2 l2 -> n1 = n2 /\ l1 = l2.
Proof.
  rewrite !UNIQUE_NAME_LINE_spelling. intros E. injection E as E.
  now apply unique_name_inj.
Qed.

(** X13. Without [__COUNTER__], two uses of [UNIQUE_NAME] get the same
    identifier exactly when they give the same name on the same line
    number (of whatever file); any other two uses get different
    identifiers. *)
Theorem UNIQUE_NAME_LINE_same_iff (n1 n2 : string) (l1 l2 : nat) :
  UNIQUE_NAME_LINE n1 l1 = UNIQUE_NAME_LINE n2 l2 <-> n1 = n2 /\ l1 = l2.
Proof.
  split.
  - apply UNIQUE_NAME_LINE_inj.
  - now intros [-> ->].
Qed.

Lemma expansions_counter (names : list string) (counter : nat) :
  snd (expansions names counter) = (counter + List.length names)%nat.
Proof.
  revert counter. induction names as [|n names IH]; intros counter;
    cbn [expansions List.length].
  - cbn. lia.
  - unfold UNIQUE_NAME_COUNTER.
    specialize (IH (S counter)).
    destruct (expansions names (S counter)) as [others c2].
    cbn [snd] in *. lia.
Qed.

Lemma expansions_members (names : list string) (counter : nat)
    (t : option (list token)) :
  In t (fst (expansions names counter)) ->
  exists n k, (counter <= k)%nat /\ t = UNIQUE_NAME_LINE n k.
Proof.
  revert counter. induction names as [|n names IH]; intros counter;
    cbn [expansions].
  - intros [].
  - unfold UNIQUE_NAME_COUNTER.
    specialize (IH (S counter)).
    destruct (expansions names (S counter)) as [others c2].
    cbn [fst] in *. intros [<-|Hin].
    + exists n, counter. split; [lia | reflexivity].
    + destruct (IH Hin) as (n' & k & Hk & ->).
      exists n', k. split; [lia | reflexivity].
Qed.

(** X14. With [__COUNTER__], the uses of [UNIQUE_NAME] in a translation
    unit all get different identifiers, whatever names they give, repeated
    ones included, and the counter advances by one per use. *)
Theorem UNIQUE_NAME_COUNTER_distinct (names : list string) (counter : nat) :
  NoDup (fst (expansions names counter))
  /\ List.length (fst (expansions names counter)) = List.length names
  /\ snd (expansions names counter) = (counter + List.length names)%nat.
Proof.
  split; [|split; [|apply expansions_counter]].
  - revert counter. induction names as [|n names IH]; intros counter;
      cbn [expansions].
    + constructor.
    + unfold UNIQUE_NAME_COUNTER.
      pose proof (expansions_members names (S counter)) as Hmem.
      specialize (IH (S counter)).
      destruct (expansions names (S counter)) as [others c2].
      cbn [fst] in *. constructor; [|assumption].
      intros Hin. destruct (Hmem _ Hin) as (n' & k & Hk & E).
      change (UNIQUE_NAME_LINE n counter = UNIQUE_NAME_LINE n' k) in E.
      apply UNIQUE_NAME_LINE_inj in E. lia.
  - revert counter. induction names as [|n names IH]; intros counter;
      cbn [expansions]; [reflexivity|].
    unfold UNIQUE_NAME_COUNTER. specialize (IH (S counter)).
    destruct (expansions names (S counter)) as [others c2].
    cbn [fst List.length] in *. now rewrite IH.
Qed.

End UniqueFacts.

(** ** FORMATTING: what [printf] prints *)

Section SinkFacts.
Import Types Bits Formatting Sink.

(** X15. For each of the four widths and every value, [printf] given
    [BINARY_FORMAT_PATTERN_w] and [BYTE_TO_BINARY_CHARS_w(v)] uses every
    argument and prints ["0b"] followed by the bytes of [v], most
    significant first, eight binary digits each, separated by ["_"]. *)
Theorem printf_binary_literal (w : width) (v : Z) :
  printf (BINARY_FORMAT_PATTERN w) (BYTE_TO_BINARY_CHARS w v)
  = Some (binary_literal (bits w / 8) v, []).
Proof.
  rewrite chars_bits.
  destruct w; cbn -[Z.testbit Z.shiftr];
    rewrite !Z.shiftr_spec by lia; reflexivity.
Qed.

(** X16. Pattern and values of different widths do not fit: with a wider
    pattern [printf] runs out of arguments, with a narrower one it leaves
    the difference unused. *)
Theorem printf_width_mismatch (w1 w2 : width) (v : Z) :
  match printf (BINARY_FORMAT_PATTERN w1) (BYTE_TO_BINARY_CHARS w2 v) with
  | None => (bits w2 < bits w1)%nat
  | Some (_, unused) =>
      (bits w1 <= bits w2)%nat
      /\ List.length unused = (bits w2 - bits w1)%nat
  end.
Proof.
  rewrite chars_bits.
  destruct w1, w2; cbn -[Z.testbit]; repeat split; lia.
Qed.

(** X17. Two values have the same characters at width [w] exactly when
    they agree modulo [2^w]. *)
Theorem chars_equal_iff (w : width) (a b : Z) :
  BYTE_TO_BINARY_CHARS w a = BYTE_TO_BINARY_CHARS w b
  <-> a mod 2 ^ Z.of_nat (bits w) = b mod 2 ^ Z.of_nat (bits w).
Proof.
  rewrite !chars_bits. split; intros E.
  - apply (f_equal reassemble) in E.
    now rewrite !reassemble_big_endian_bits in E.
  - rewrite <- (big_endian_bits_mod (bits w) (bits w) a) by lia.
    rewrite <- (big_endian_bits_mod (bits w) (bits w) b) by lia.
    now rewrite E.
Qed.

End SinkFacts.

(** ** ENUMS: which lists build, and what an insertion does *)

Section EnumEdits.
Import Tokens Enums.

Lemma enumerators_declarable (s : scope) (L : list string) :
  Forall (fun n => identifier n = true) L ->
  forallb (enumerator s) L = true
  <-> Forall (fun n => declarable s n = true) L.
Proof.
  induction 1 as [|n L Hn _ IH]; cbn [forallb].
  - split; [constructor | reflexivity].
  - unfold enumerator at 1. rewrite Hn. cbn [andb].
    rewrite andb_true_iff, IH. split.
    + intros [Hd Hall]. now constructor.
    + intros H. inversion H; subst. now split.
Qed.



Lemma enumerate_app (A B : list string) (next : Z) :
  enumerate next (A ++ B)
  = enumerate next A ++ enumerate (next + Z.of_nat (List.length A)) B.
Proof.
  revert next. induction A as [|a A IH]; intros next; cbn [app enumerate List.length].
  - now rewrite Z.add_0_r.
  - rewrite IH. do 3 f_equal. lia.
Qed.



End EnumEdits.

(** ** DEFAULT ARGUMENTS: a call without arguments *)

Section NoArgument.
Import Tokens Defaults.

(** X20. A call of the dispatcher without arguments passes one empty
    argument; it is counted like a call with one argument (an argument
    that is still one once macro-expanded), so the postfix is 1 and
    never 0. *)
Theorem no_argument_counts_as_one (a : Arg) (f : Arg) :
  one_argument a = true ->
  VA_ARGS_COUNT [[]] = Some [Number 1]
  /\ VA_ARGS_COUNT [a] = VA_ARGS_COUNT [[]]
  /\ WITH_DEFAULTS f [[]]
     = Some (SELECT_FUNCTION f [Number 1] ++ [LParen; RParen]).
Proof.
  intros Ha. split; [reflexivity|]. split; [|reflexivity].
  rewrite VA_ARGS_COUNT_plain; [reflexivity | discriminate |].
  now repeat constructor.
Qed.

Lemma no_argument_counts_as_one_witness :
  VA_ARGS_COUNT [[]] = Some [Number 1]
  /\ VA_ARGS_COUNT [[StringLit "Sailor"]] = VA_ARGS_COUNT [[]]
  /\ WITH_DEFAULTS [Ident "greet"] [[]]
     = Some (SELECT_FUNCTION [Ident "greet"] [Number 1] ++ [LParen; RParen]).
Proof.
  apply (no_argument_counts_as_one [StringLit "Sailor"] [Ident "greet"]).
  reflexivity.
Defined.

End NoArgument.

(** ** DEBUGGING, LOGGING AND ASSERTIONS: what is written and raised *)

Section LoggingFacts.
Import Types Formatting Logging.
Local Open Scope string_scope.

Variable file : string.
Variable line : Z.

(** X21. An assertion whose condition is not 0 writes nothing and raises
    nothing.  One whose condition is 0 first writes the header with the
    file, the line and the group [ASSERT] to [stderr], writes nothing to
    [stdout], and ends by raising [SIGABRT]; this holds for [ASSERT] and
    for [ASSERTF]. *)
Theorem assertion_outcomes (x : Z) (x_text format : string)
    (args : list argument) :
  let plain := ASSERT file line x x_text in
  let formatted := ASSERTF file line x x_text format args in
  if (x =? 0)%Z
  then hd_error plain
       = Some (Printf stderr "%s:%d [ASSERT]: " [Text file; Integer line])
       /\ hd_error formatted = hd_error plain
       /\ existsb (writes_to stdout) (plain ++ formatted) = false
       /\ last plain (Fflush stdout) = Raise SIGABRT
       /\ last formatted (Fflush stdout) = Raise SIGABRT
       /\ List.length (filter raises plain) = 1%nat
       /\ List.length (filter raises formatted) = 1%nat
  else plain = [] /\ formatted = [].
Proof.
  unfold ASSERT, ASSERTF, c_cond.
  destruct (x =? 0)%Z; cbn; repeat split.
Qed.

(** X22. [ERROR], [ERRORF], [PANIC], [PANICF], [NO_DEFAULT],
    [INVALID_PATH] and [NOT_IMPLEMENTED] write to [stderr] only and raise
    [SIGABRT] once, as their last action; the three without a format
    flush [stderr] just before it, [ERRORF] and [PANICF] do not flush.
    [LOG] and [LOGF] write to [stdout] only and raise nothing. *)
Theorem reporting_streams (group string format : String.string)
    (args : list argument) :
  let failing :=
    [ ERROR file line group string; ERRORF file line group format args;
      PANIC file line string; PANICF file line format args;
      NO_DEFAULT file line; INVALID_PATH file line;
      NOT_IMPLEMENTED file line ] in
  let logging := [ LOG file line string; LOGF file line format args ] in
  Forall (fun tr => existsb (writes_to stdout) tr = false
                    /\ last tr (Fflush stdout) = Raise SIGABRT
                    /\ List.length (filter raises tr) = 1%nat) failing
  /\ Forall (fun tr => existsb (writes_to stderr) tr = false
                       /\ existsb raises tr = false) logging
  /\ Forall (fun tr => In (Fflush stderr) tr)
       [ ERROR file line group string; PANIC file line string;
         NO_DEFAULT file line; INVALID_PATH file line;
         NOT_IMPLEMENTED file line ]
  /\ Forall (fun tr => ~ In (Fflush stderr) tr)
       [ ERRORF file line group format args; PANICF file line format args ].
Proof.
  cbn. repeat split; repeat constructor; cbn; try tauto;
    intros H; repeat (destruct H as [H|H]; [discriminate H|]); exact H.
Qed.

Lemma placeholders_cons (c : ascii) (s : string) :
  placeholders (String c s)
  = if Ascii.eqb c "%"
    then match s with
         | EmptyString => O
         | String d s' =>
             if Ascii.eqb d "%" then placeholders s' else S (placeholders s')
         end
    else placeholders s.
Proof.
  destruct c as [[] [] [] [] [] [] [] []]; try reflexivity.
  destruct s as [|d s']; [reflexivity|].
  destruct d as [[] [] [] [] [] [] [] []]; reflexivity.
Qed.

(** Text after a format can only add conversions. *)
Lemma placeholders_append (n : nat) (s t : string) :
  (String.length s <= n)%nat ->
  (placeholders s <= placeholders (s ++ t))%nat.
Proof.
  revert s. induction n as [|n IH]; intros s Hn.
  - destruct s; [cbn; lia | cbn in Hn; lia].
  - destruct s as [|c s]; [cbn; lia|].
    cbn [append]. rewrite !placeholders_cons.
    cbn [String.length] in Hn.
    destruct (Ascii.eqb c "%").
    + destruct s as [|d s']; [cbn; lia|].
      cbn [append String.length] in *.
      destruct (Ascii.eqb d "%").
      * apply IH. lia.
      * apply le_n_S, IH. lia.
    + apply IH. lia.
Qed.

(** X23. The message of [LOG] and the spelling of the condition of
    [ASSERT] are used as the format of a call without arguments: when the
    message, or the asserted expression, contains a conversion (as the
    operator [%] followed by another character is), the logger is called
    with a conversion and no argument for it.  [LOGF] with as many
    arguments as conversions is called correctly. *)
Theorem message_is_the_format (x_text message format : string)
    (args : list argument) :
  ((0 < placeholders x_text)%nat ->
   forallb well_formed (ASSERT file line 0 x_text) = false)
  /\ ((0 < placeholders message)%nat ->
      forallb well_formed (LOG file line message) = false)
  /\ (placeholders (format ++ newline) = List.length args ->
      forallb well_formed (LOGF file line format args) = true).
Proof.
  repeat split.
  - intros Hpos.
    assert (H : (0 < placeholders
                       (("'" ++ x_text ++ "' is false." ++ newline)
                          ++ newline))%nat).
    { change (("'" ++ x_text ++ "' is false." ++ newline) ++ newline)
        with (String "'" ((x_text ++ "' is false." ++ newline) ++ newline)).
      rewrite placeholders_cons.
      change (Ascii.eqb "'" "%") with false. cbv iota.
      pose proof (placeholders_append _ x_text
                    ("' is false." ++ newline) (le_n _)).
      pose proof (placeholders_append _ (x_text ++ "' is false." ++ newline)
                    newline (le_n _)).
      lia. }
    unfold ASSERT, c_cond, ERROR, ERR_HEADER, ERROR_LOGGER, DEBUG_BREAK.
    change (0 =? 0)%Z with true. cbv iota.
    cbn [app forallb well_formed List.length].
    destruct (placeholders
                (("'" ++ x_text ++ "' is false." ++ newline) ++ newline));
      [lia|].
    cbn [Nat.eqb andb]. apply andb_false_r.
  - intros Hpos.
    pose proof (placeholders_append _ message newline (le_n _)) as Hle.
    unfold LOG, HEADER, STANDARD_LOGGER.
    cbn [app forallb well_formed List.length].
    destruct (placeholders (message ++ newline)); [lia|].
    cbn [Nat.eqb andb]. apply andb_false_r.
  - intros E.
    unfold LOGF, HEADER, STANDARD_LOGGER.
    cbn [app forallb well_formed List.length].
    rewrite E, !Nat.eqb_refl. reflexivity.
Qed.

End LoggingFacts.

Lemma message_is_the_format_witness :
  forallb Logging.well_formed
    (Logging.ASSERT "main.c" 7 0 "x % 2 == 0") = false
  /\ forallb Logging.well_formed
       (Logging.LOG "main.c" 7 "100 % done") = false
  /\ forallb Logging.well_formed
       (Logging.LOGF "main.c" 7 "%d items" [Logging.Integer 3]) = true.
Proof.
  destruct (message_is_the_format "main.c" 7 "x % 2 == 0" "100 % done"
              "%d items" [Logging.Integer 3]) as (A & L & F).
  split; [apply A; simpl; lia|].
  split; [apply L; simpl; lia|].
  apply F. reflexivity.
Defined.

(** ** OS DETECTION: which name is left *)

Section OSFacts.
Import OS.
Local Open Scope string_scope.

Variable p : platform.

Lemma run_name (bs : list ((platform -> bool) * (string * string)))
    (st : detected) :
  OS_NAME (fold_left (block p) bs st)
  = match find (holds p) (rev bs) with
    | Some b => Some (fst (snd b))
    | None => OS_NAME st
    end.
Proof.
  induction bs as [|b bs IH] using rev_ind; [reflexivity|].
  rewrite fold_left_app, rev_app_distr. cbn [fold_left rev app find].
  unfold block at 1, holds at 1.
  destruct (fst b p); [reflexivity | apply IH].
Qed.

Lemma run_flags (bs : list ((platform -> bool) * (string * string)))
    (st : detected) :
  OS_IS (fold_left (block p) bs st)
  = (OS_IS st ++ map (fun b => snd (snd b)) (filter (holds p) bs))%list.
Proof.
  revert st. induction bs as [|b bs IH]; intros st; cbn [fold_left filter].
  - now rewrite app_nil_r.
  - rewrite IH. unfold block, holds.
    destruct (fst b p); cbn [OS_IS map]; [|reflexivity].
    now rewrite <- app_assoc.
Qed.

Lemma block_consistent (st : detected)
    (b : (platform -> bool) * (string * string)) :
  consistent st -> consistent (block p st b).
Proof.
  intros [Hname Hre]. unfold block. destruct (fst b p); [|now split].
  split; cbn [OS_NAME OS_IS redefinitions].
  - split; [discriminate|]. intros E. now destruct (OS_IS st).
  - rewrite length_app. cbn [List.length].
    destruct (OS_NAME st) eqn:E.
    + destruct (OS_IS st) eqn:F.
      * destruct Hname as [_ Hn]. discriminate (Hn eq_refl).
      * cbn [List.length] in *. lia.
    + destruct Hname as [Hn _]. rewrite (Hn eq_refl) in *. cbn in *. lia.
Qed.

Lemma run_consistent (bs : list ((platform -> bool) * (string * string)))
    (st : detected) :
  consistent st -> consistent (fold_left (block p) bs st).
Proof.
  revert st. induction bs as [|b bs IH]; intros st H; [exact H|].
  cbn [fold_left]. now apply IH, block_consistent.
Qed.

Lemma detect_name :
  OS_NAME (detect p)
  = option_map (fun b => fst (snd b)) (find (holds p) (rev blocks)).
Proof.
  unfold detect. rewrite run_name.
  now destruct (find (holds p) (rev blocks)).
Qed.

Lemma detect_flags :
  OS_IS (detect p) = map (fun b => snd (snd b)) (filter (holds p) blocks).
Proof. unfold detect. now rewrite run_flags. Qed.

Lemma detect_consistent : consistent (detect p).
Proof. apply run_consistent. split; [split; reflexivity | reflexivity]. Qed.

(** X24. The block that matches last decides [OS_NAME]: its replacement is
    that of the last of the twelve blocks whose condition holds, and it is
    left undefined when none holds. *)
Theorem last_block_names_the_OS :
  OS_NAME (detect p)
  = option_map (fun b => fst (snd b)) (find (holds p) (rev blocks)).
Proof. exact detect_name. Qed.

(** X25. An [OS_IS_...] macro is defined for each block whose condition
    holds, in file order; [OS_NAME] is defined exactly when one of them
    is; and with [k] of them [OS_NAME] has been defined [k] times, each
    time with a different replacement, that is redefined [k - 1] times. *)
Theorem flags_and_redefinitions :
  OS_IS (detect p) = map (fun b => snd (snd b)) (filter (holds p) blocks)
  /\ (OS_NAME (detect p) = None <-> OS_IS (detect p) = [])
  /\ redefinitions (detect p) = Nat.pred (List.length (OS_IS (detect p)))
  /\ NoDup (map (fun b => fst (snd b)) blocks).
Proof.
  split; [exact detect_flags|].
  destruct detect_consistent as [Hname Hre].
  split; [exact Hname|]. split; [exact Hre|].
  cbn. repeat constructor; cbn; intros H;
    repeat (destruct H as [H|H]; [discriminate H|]); exact H.
Qed.

Lemma two_members (a b : string) (l : list string) :
  In a l -> In b l -> a <> b -> (2 <= List.length l)%nat.
Proof.
  intros Ha Hb Hne. destruct l as [|x [|y l]]; cbn in *.
  - contradiction.
  - destruct Ha as [<-|[]], Hb as [<-|[]]. now contradiction Hne.
  - lia.
Qed.

(** X26. Where [__linux__] and one of [__unix], [__unix__] are both set, as
    on Linux, [OS_NAME] is not ["Linux"]: the later block for Unix (or one
    after it) has replaced it, although [OS_IS_LINUX] and [OS_IS_UNIX] are
    both defined; [OS_NAME] has been redefined at least once. *)
Theorem unix_replaces_linux :
  nonzero (__linux__ p) = true ->
  nonzero (__unix p) || nonzero (__unix__ p) = true ->
  In (OS_NAME (detect p))
    [ Some "Unix"; Some "FreeBSD";
      Some "BSD (DragonFly BSD, FreeBSD, OpenBSD, NetBSD)";
      Some "QNX"; Some "AIX"; Some "HP-UX"; Some "Solaris" ]
  /\ OS_NAME (detect p) <> Some "Linux"
  /\ In "OS_IS_LINUX" (OS_IS (detect p))
  /\ In "OS_IS_UNIX" (OS_IS (detect p))
  /\ (1 <= redefinitions (detect p))%nat.
Proof.
  intros Hlinux Hunix.
  assert (Hname : In (OS_NAME (detect p))
    [ Some "Unix"; Some "FreeBSD";
      Some "BSD (DragonFly BSD, FreeBSD, OpenBSD, NetBSD)";
      Some "QNX"; Some "AIX"; Some "HP-UX"; Some "Solaris" ]).
  { rewrite detect_name.
    cbn [blocks rev app find]. unfold holds. cbn [fst snd].
    rewrite Hunix.
    destruct (nonzero (__sun p)); [cbn; tauto|].
    destruct (nonzero (__hpux p)); [cbn; tauto|].
    destruct (nonzero (_AIX p)); [cbn; tauto|].
    destruct (defined (__QNX__ p)); [cbn; tauto|].
    destruct (defined (BSD p)); [cbn; tauto|].
    destruct (nonzero (__FreeBSD__ p)); cbn; tauto. }
  pose proof detect_flags as Hflags.
  destruct detect_consistent as [_ Hre].
  assert (Hl : In "OS_IS_LINUX" (OS_IS (detect p))).
  { rewrite Hflags.
    apply (in_map (fun b => snd (snd b)) _
             (fun q => nonzero (__linux__ q), ("Linux", "OS_IS_LINUX"))).
    apply filter_In. split; [cbn; tauto | exact Hlinux]. }
  assert (Hu : In "OS_IS_UNIX" (OS_IS (detect p))).
  { rewrite Hflags.
    apply (in_map (fun b => snd (snd b)) _
             (fun q => nonzero (__unix q) || nonzero (__unix__ q),
              ("Unix", "OS_IS_UNIX"))).
    apply filter_In. split; [cbn; tauto | exact Hunix]. }
  split; [exact Hname|]. split.
  - intros E. rewrite E in Hname. cbn in Hname.
    repeat (destruct Hname as [Hname|Hname]; [discriminate Hname|]).
    exact Hname.
  - split; [exact Hl|]. split; [exact Hu|].
    rewrite Hre.
    assert (2 <= List.length (OS_IS (detect p)))%nat; [|lia].
    apply (two_members "OS_IS_LINUX" "OS_IS_UNIX");
      [assumption | assumption | discriminate].
Qed.

End OSFacts.

Lemma unix_replaces_linux_witness :
  In (OS.OS_NAME (OS.detect OS.linux))
    [ Some "Unix"; Some "FreeBSD";
      Some "BSD (DragonFly BSD, FreeBSD, OpenBSD, NetBSD)";
      Some "QNX"; Some "AIX"; Some "HP-UX"; Some "Solaris" ]%string
  /\ OS.OS_NAME (OS.detect OS.linux) <> Some "Linux"%string
  /\ In "OS_IS_LINUX"%string (OS.OS_IS (OS.detect OS.linux))
  /\ In "OS_IS_UNIX"%string (OS.OS_IS (OS.detect OS.linux))
  /\ (1 <= OS.redefinitions (OS.detect OS.linux))%nat.
Proof.
  apply (unix_replaces_linux OS.linux); reflexivity.
Defined.

(** ** FORMATTING: a prefix and a delimiter of the user's *)

Section ConfiguredFacts.
Import Types Bits Formatting Sink Unique.
Local Open Scope string_scope.

Lemma printf_cons (c : ascii) (s : string) (args : list ascii) :
  Ascii.eqb "%" c = false ->
  printf (String c s) args = emit c (printf s args).
Proof.
  destruct c as [[] [] [] [] [] [] [] []]; intros E;
    try reflexivity; discriminate E.
Qed.

Lemma emit_map (c : ascii) (a : string) (r : option (string * list ascii)) :
  emit c (option_map (fun '(out, rest) => (a ++ out, rest)) r)
  = option_map (fun '(out, rest) => (String c a ++ out, rest)) r.
Proof. now destruct r as [[out rest]|]. Qed.

(** Text without [%] is printed as it is. *)
Lemma printf_literal (a format : string) (args : list ascii) :
  occurs "%" a = false ->
  printf (a ++ format) args
  = option_map (fun '(out, rest) => (a ++ out, rest)) (printf format args).
Proof.
  induction a as [|c a IH]; cbn [occurs append]; intros H.
  - now destruct (printf format args) as [[out rest]|].
  - apply orb_false_iff in H as [Hc Ha].
    rewrite printf_cons, IH by assumption. apply emit_map.
Qed.

Lemma placeholders_literal (a format : string) :
  occurs "%" a = false -> placeholders (a ++ format) = placeholders format.
Proof.
  induction a as [|c a IH]; cbn [occurs append]; intros H; [reflexivity|].
  apply orb_false_iff in H as [Hc Ha].
  rewrite placeholders_cons, Ascii.eqb_sym, Hc. now apply IH.
Qed.

Lemma placeholders_group (format : string) :
  placeholders ("%c%c%c%c%c%c%c%c" ++ format) = (8 + placeholders format)%nat.
Proof. reflexivity. Qed.

Lemma printf_group (format : string) (a1 a2 a3 a4 a5 a6 a7 a8 : ascii)
    (args : list ascii) :
  printf ("%c%c%c%c%c%c%c%c" ++ format)
    (a1 :: a2 :: a3 :: a4 :: a5 :: a6 :: a7 :: a8 :: args)
  = option_map
      (fun '(out, rest) =>
         (string_of_list_ascii [a1; a2; a3; a4; a5; a6; a7; a8] ++ out, rest))
      (printf format args).
Proof. cbn. now destruct (printf format args) as [[out rest]|]. Qed.

(** The default configuration is the one the claims are about. *)
Lemma configured_default (w : width) :
  Configured.BINARY_FORMAT_PATTERN
    BINARY_FORMAT_PATTERN_PREFIX BINARY_FORMAT_PATTERN_DELIMITER w
  = BINARY_FORMAT_PATTERN w.
Proof. now destruct w. Qed.

(** X27. With any prefix and any delimiter the user defines that contain
    no [%], the pattern of width [w] still has [w] conversions, and
    [printf] given it and [BYTE_TO_BINARY_CHARS_w(v)] uses every argument
    and prints the prefix followed by the bytes of [v], most significant
    first, with the delimiter between them. *)
Theorem configured_pattern (prefix delimiter : string) (w : width) (v : Z) :
  occurs "%" prefix = false ->
  occurs "%" delimiter = false ->
  placeholders (Configured.BINARY_FORMAT_PATTERN prefix delimiter w) = bits w
  /\ printf (Configured.BINARY_FORMAT_PATTERN prefix delimiter w)
       (BYTE_TO_BINARY_CHARS w v)
     = Some (prefix ++ String.concat delimiter (byte_texts (bits w / 8) v),
             []).
Proof.
  intros Hp Hd. split.
  - destruct w; cbn [Configured.BINARY_FORMAT_PATTERN bits];
      unfold Configured.BINARY_FORMAT_PATTERN_8,
        Configured.BINARY_FORMAT_PATTERN_16,
        Configured.BINARY_FORMAT_PATTERN_32,
        Configured.BINARY_FORMAT_PATTERN_64;
      rewrite (placeholders_literal prefix) by assumption;
      repeat (rewrite placeholders_group,
                (placeholders_literal delimiter) by assumption);
      reflexivity.
  - rewrite chars_bits.
    destruct w; cbn [Configured.BINARY_FORMAT_PATTERN bits];
      unfold Configured.BINARY_FORMAT_PATTERN_8,
        Configured.BINARY_FORMAT_PATTERN_16,
        Configured.BINARY_FORMAT_PATTERN_32,
        Configured.BINARY_FORMAT_PATTERN_64;
      cbn [big_endian_bits];
      rewrite (printf_literal prefix) by assumption;
      repeat (rewrite printf_group,
                (printf_literal delimiter) by assumption);
      cbn -[Z.testbit Z.shiftr append];
      rewrite !Z.shiftr_spec by lia;
      cbn -[Z.testbit]; reflexivity.
Qed.

Lemma configured_pattern_witness :
  placeholders (Configured.BINARY_FORMAT_PATTERN "0x" "'" W16) = bits W16
  /\ printf (Configured.BINARY_FORMAT_PATTERN "0x" "'" W16)
       (BYTE_TO_BINARY_CHARS W16 515)
     = Some ("0x" ++ String.concat "'" (byte_texts (bits W16 / 8) 515), []).
Proof.
  apply (configured_pattern "0x" "'" W16 515); reflexivity.
Defined.

End ConfiguredFacts.
